(** * Clippy: the session client and the session core, in Rocq

    A shallow embedding of the front-end of the collaborative clipboard
    (React components, the WebSocket hook, the API client, the runtime
    configuration and the encryption helpers), together with a model of
    the session core (registry, block ledger, eviction sweeper) that the
    front-end talks to. *)

From Stdlib Require Import Ascii String.
From stdpp Require Import gmap strings list sorting pretty.


(** * The client's data model *)

(** A user record as the client receives it from the server
    ([u.id], [u.name], [u.is_host]). *)
Record User := mkUser {
  u_id : string;
  u_name : string;
  u_is_host : bool
}.

(** A block as the client renders it ([block.id], [block.type],
    [block.content], [block.filename], [block.created_at]). *)
Record Block := mkBlock {
  b_id : N;
  b_type : string;
  b_content : string;
  b_filename : string;
  b_created_at : string
}.

(** The session object held by [useState(null)]: the snapshot returned by
    [getSession], later patched with the spread operator.  A property the
    object does not have is [None]. *)
Record Session := mkSession {
  s_session_id : option string;
  s_host_id : option string;
  s_allow_join : option bool;
  s_users : option (list User);
  s_blocks : option (list Block)
}.

(** [{ ...prev }] for a [prev] that may be [null]: spreading [null] gives
    the empty object. *)
Definition spread (prev : option Session) : Session :=
  match prev with
  | Some s => s
  | None => mkSession None None None None None
  end.

(** The state of [ClipboardInterface] that the message handler touches.
    [reload_scheduled] records the pending [window.location.reload]. *)
Record State := mkState {
  session : option Session;
  blocks : list Block;
  users : list User;
  notification : option string;
  reload_scheduled : bool
}.

(** A parsed WebSocket message.  [m_type] is the tag the handler switches
    on; the payload fields are those the handler reads for some tag (a field
    that a tag does not read is ignored for it). *)
Record Message := mkMessage {
  m_type : string;
  m_user : User;
  m_user_id : string;
  m_block : Block;
  m_block_id : N;
  m_new_host_id : string;
  m_allow_join : bool
}.

Definition setUsers (f : list User → list User) (st : State) : State :=
  mkState (session st) (blocks st) (f (users st)) (notification st)
          (reload_scheduled st).

Definition setBlocks (f : list Block → list Block) (st : State) : State :=
  mkState (session st) (f (blocks st)) (users st) (notification st)
          (reload_scheduled st).

Definition setSession (f : option Session → option Session) (st : State) : State :=
  mkState (f (session st)) (blocks st) (users st) (notification st)
          (reload_scheduled st).

(** [showNotification(text)]: the text is displayed (the timer that clears
    it three seconds later is not part of the handler's result). *)
Definition showNotification (text : string) (st : State) : State :=
  mkState (session st) (blocks st) (users st) (Some text)
          (reload_scheduled st).

Definition scheduleReload (st : State) : State :=
  mkState (session st) (blocks st) (users st) (notification st) true.

(** [users.find((u) => u.id === id)] *)
Definition find_user (id : string) (us : list User) : option User :=
  List.find (λ u, String.eqb (u_id u) id) us.

(** [{ ...u, is_host: u.id === new_host_id }] *)
Definition with_is_host (new_host_id : string) (u : User) : User :=
  mkUser (u_id u) (u_name u) (String.eqb (u_id u) new_host_id).

(** [handleWebSocketMessage], ClipboardInterface.jsx.  [me] is
    [sessionData.user_id].  The [switch] has no [default] branch.  The
    [users] that [user_left] searches for the name to display is the list of
    the render that created the callback, taken here to be the current
    one. *)
Definition handleWebSocketMessage (me : string) (message : Message)
    (st : State) : State :=
  if String.eqb (m_type message) "user_joined" then
    let st := setUsers (λ prev, prev ++ [m_user message]) st in
    showNotification (u_name (m_user message) +:+ " joined the session") st
  else if String.eqb (m_type message) "user_left" then
    let leftUser := find_user (m_user_id message) (users st) in
    let st :=
      setUsers (λ prev,
        filter (λ u, u_id u ≠ m_user_id message) prev) st in
    match leftUser with
    | Some u => showNotification (u_name u +:+ " left the session") st
    | None => st
    end
  else if String.eqb (m_type message) "block_created" then
    setBlocks (λ prev, prev ++ [m_block message]) st
  else if String.eqb (m_type message) "block_deleted" then
    setBlocks (λ prev,
      filter (λ b, b_id b ≠ m_block_id message) prev) st
  else if String.eqb (m_type message) "host_transferred" then
    let st :=
      setUsers (λ prev, with_is_host (m_new_host_id message) <$> prev) st in
    let st :=
      setSession (λ prev,
        let s := spread prev in
        Some (mkSession (s_session_id s) (Some (m_new_host_id message))
                        (s_allow_join s) (s_users s) (s_blocks s))) st in
    if String.eqb (m_new_host_id message) me
    then showNotification "You are now the host" st
    else st
  else if String.eqb (m_type message) "join_permission_changed" then
    setSession (λ prev,
      let s := spread prev in
      Some (mkSession (s_session_id s) (s_host_id s)
                      (Some (m_allow_join message)) (s_users s) (s_blocks s))) st
  else if String.eqb (m_type message) "session_destroyed" then
    scheduleReload (showNotification "Session has been destroyed" st)
  else st.

(** [wsRef.current.onmessage] of [useWebSocket]: a [pong] never reaches the
    [onMessage] callback. *)
Definition onmessage (onMessage : Message → State → State)
    (message : Message) (st : State) : State :=
  if negb (String.eqb (m_type message) "pong") then onMessage message st
  else st.

(** The seven event kinds of the real-time channel, and their tags. *)
Inductive EventKind :=
  | user_joined | user_left | block_created | block_deleted
  | host_transferred | join_permission_changed | session_destroyed.

Definition tag (k : EventKind) : string :=
  match k with
  | user_joined => "user_joined"
  | user_left => "user_left"
  | block_created => "block_created"
  | block_deleted => "block_deleted"
  | host_transferred => "host_transferred"
  | join_permission_changed => "join_permission_changed"
  | session_destroyed => "session_destroyed"
  end.

(** What the handler does to the users, the blocks and the session for an
    event of kind [k]: [st] before, [st'] after. *)
Definition handles (k : EventKind) (m : Message) (st st' : State) : Prop :=
  match k with
  | user_joined =>
      users st' = users st ++ [m_user m]
      ∧ blocks st' = blocks st ∧ session st' = session st
  | user_left =>
      users st' = filter (λ u, u_id u ≠ m_user_id m) (users st)
      ∧ blocks st' = blocks st ∧ session st' = session st
  | block_created =>
      blocks st' = blocks st ++ [m_block m]
      ∧ users st' = users st ∧ session st' = session st
  | block_deleted =>
      blocks st' = filter (λ b, b_id b ≠ m_block_id m) (blocks st)
      ∧ users st' = users st ∧ session st' = session st
  | host_transferred =>
      users st' = with_is_host (m_new_host_id m) <$> users st
      ∧ blocks st' = blocks st
      ∧ s_host_id <$> session st' = Some (Some (m_new_host_id m))
      ∧ s_allow_join <$> session st' = Some (s_allow_join (spread (session st)))
  | join_permission_changed =>
      s_allow_join <$> session st' = Some (Some (m_allow_join m))
      ∧ s_host_id <$> session st' = Some (s_host_id (spread (session st)))
      ∧ users st' = users st ∧ blocks st' = blocks st
  | session_destroyed =>
      users st' = users st ∧ blocks st' = blocks st
      ∧ session st' = session st
      ∧ notification st' = Some "Session has been destroyed"
      ∧ reload_scheduled st' = true
  end.

(** The users whose [is_host] flag is set. *)
Definition hosts (us : list User) : list User :=
  filter (λ u, u_is_host u = true) us.

Definition one_host (us : list User) : Prop := length (hosts us) = 1.

(** * JavaScript values, exceptions and the network *)

#[local] Set Warnings "-register-all".


(** The values that [response.json()] can produce. *)
Inductive JsValue :=
  | JUndefined
  | JNull
  | JBool (b : bool)
  | JNum (z : Z)
  | JStr (s : string)
  | JArr (items : list JsValue)
  | JObj (fields : list (string * JsValue)).

(** What a [throw] carries.  [Error v] is [new Error(v)]: its message is
    the string conversion of [v]. *)
Inductive JsError :=
  | Error (message : JsValue)
  | SyntaxError
  | TypeError (message : string)
  | URIError.

(** The result of a call that may throw; for an [async] function, [Return]
    is the value the promise resolves with and [Throw] the reason it
    rejects with. *)
Inductive Outcome (A : Type) :=
  | Return (a : A)
  | Throw (e : JsError).
Arguments Return {A} a.
Arguments Throw {A} e.

#[global] Instance Outcome_ret : MRet Outcome := λ A a, Return a.
#[global] Instance Outcome_bind : MBind Outcome := λ A B f m,
  match m with
  | Return a => f a
  | Throw e => Throw e
  end.

(** [try { body } catch (e) { handler(e) }] *)
Definition try_catch {A} (body : Outcome A) (handler : JsError → Outcome A)
    : Outcome A :=
  match body with
  | Return a => Return a
  | Throw e => handler e
  end.

Definition throws {A} (o : Outcome A) : Prop := ∃ e, o = Throw e.

(** JavaScript truthiness, as used by [!x], [x || y] and [x ? a : b]. *)
Definition truthy (v : JsValue) : bool :=
  match v with
  | JUndefined | JNull => false
  | JBool b => b
  | JNum z => negb (z =? 0)%Z
  | JStr s => negb (String.eqb s EmptyString)
  | JArr _ | JObj _ => true
  end.

(** [x || y] *)
Definition js_or (x y : JsValue) : JsValue := if truthy x then x else y.

Fixpoint assoc (k : string) (fields : list (string * JsValue)) : JsValue :=
  match fields with
  | [] => JUndefined
  | (k', v) :: rest => if String.eqb k k' then v else assoc k rest
  end.

(** [v.k]: reading a property of [null] or [undefined] throws; a primitive
    or an array has no property of the names read here. *)
Definition get_prop (v : JsValue) (k : string) : Outcome JsValue :=
  match v with
  | JObj fields => Return (assoc k fields)
  | JUndefined | JNull =>
      Throw (TypeError ("Cannot read properties of null (reading '" +:+ k +:+ "')"))
  | _ => Return JUndefined
  end.

Record Request := mkRequest {
  q_url : string;
  q_method : string;
  q_body : option JsValue
}.

(** An HTTP response: [response.ok], the body as [response.text()] gives
    it, and as [response.json()] gives it ([None]: the body is not JSON and
    the promise rejects with a [SyntaxError]). *)
Record Response := mkResponse {
  r_ok : bool;
  r_text : string;
  r_json : option JsValue
}.

(** What [await fetch(...)] does: the promise rejects when no response is
    obtained, and resolves with the response otherwise, whatever its
    status. *)
Inductive FetchOutcome :=
  | NetworkError (message : string)
  | Responded (r : Response).

Definition Network := Request → FetchOutcome.

Definition fetch (net : Network) (q : Request) : Outcome Response :=
  match net q with
  | NetworkError m => Throw (TypeError m)
  | Responded r => Return r
  end.

Definition json (r : Response) : Outcome JsValue :=
  match r_json r with
  | Some v => Return v
  | None => Throw SyntaxError
  end.

(** * config.js: the runtime configuration *)

(** White space as [\s] and [trim()] see it, on code units below 256. *)
Definition is_js_space (c : ascii) : bool :=
  let n := nat_of_ascii c in
  (n =? 9) || (n =? 10) || (n =? 11) || (n =? 12) || (n =? 13)
  || (n =? 32) || (n =? 160).

(** The double quote (code unit 34) and the single quote (39). *)
Definition is_quote (c : ascii) : bool :=
  let n := nat_of_ascii c in (n =? 34) || (n =? 39).

Definition is_newline (c : ascii) : bool := (nat_of_ascii c =? 10).

(** A regular expression that is a sequence of quantified character
    classes, with at most one capture group. *)
Inductive Quant := One | Opt | Star | Plus.

Record Atom := mkAtom {
  a_class : ascii → bool;
  a_quant : Quant;
  a_captured : bool
}.

Definition capture (a : Atom) (c : ascii) (cap : string) : string :=
  if a_captured a then cap +:+ String c EmptyString else cap.

(** Backtracking match of the atoms [p] at the start of [s]; quantifiers are
    greedy, and the first alternative that lets the rest of the pattern
    match wins.  The result is the text of the capture group. *)
Fixpoint match_here (p : list Atom) : string → string → option string :=
  match p with
  | [] => λ _ cap, Some cap
  | a :: p' =>
      let k := match_here p' in
      let star :=
        fix star (s cap : string) : option string :=
          match s with
          | String c s' =>
              if a_class a c then
                match star s' (capture a c cap) with
                | Some r => Some r
                | None => k s cap
                end
              else k s cap
          | EmptyString => k s cap
          end in
      match a_quant a with
      | One => λ s cap,
          match s with
          | String c s' => if a_class a c then k s' (capture a c cap) else None
          | EmptyString => None
          end
      | Opt => λ s cap,
          match s with
          | String c s' =>
              if a_class a c then
                match k s' (capture a c cap) with
                | Some r => Some r
                | None => k s cap
                end
              else k s cap
          | EmptyString => k s cap
          end
      | Star => star
      | Plus => λ s cap,
          match s with
          | String c s' =>
              if a_class a c then star s' (capture a c cap) else None
          | EmptyString => None
          end
      end
  end.

(** [text.match(re)] for a pattern without the [g] flag: the leftmost
    position at which the pattern matches. *)
Fixpoint regex_match (p : list Atom) (text : string) : option string :=
  match match_here p text EmptyString with
  | Some r => Some r
  | None =>
      match text with
      | String _ rest => regex_match p rest
      | EmptyString => None
      end
  end.

Definition lit (c : ascii) : Atom := mkAtom (Ascii.eqb c) One false.

(** The pattern of [initConfig], [/url:\s*[QQ]?([^QQ\n]+)[QQ]?/] where
    [QQ] stands for the two quote characters: the literal [url:], white
    space, an optional quote, the captured run of characters that are
    neither a quote nor a newline, and an optional quote. *)
Definition url_pattern : list Atom :=
  [ lit "u"; lit "r"; lit "l"; lit ":";
    mkAtom is_js_space Star false;
    mkAtom is_quote Opt false;
    mkAtom (λ c, negb (is_quote c || is_newline c)) Plus true;
    mkAtom is_quote Opt false ].

Fixpoint trim_start (s : string) : string :=
  match s with
  | String c s' => if is_js_space c then trim_start s' else s
  | EmptyString => EmptyString
  end.

(** [s.trim()] *)
Definition trim (s : string) : string :=
  String.rev (trim_start (String.rev (trim_start s))).

(** The module: [let backendUrl = null], and the build-time environment
    ([import.meta.env.VITE_API_URL], [None] when it is not defined). *)
Record Config := mkConfig {
  backendUrl : option string
}.

Definition env_truthy (VITE_API_URL : option string) : bool :=
  match VITE_API_URL with
  | Some u => negb (String.eqb u EmptyString)
  | None => false
  end.

(** [['/config.yaml', VITE_API_URL ? `${VITE_API_URL}/config.yaml` : null].filter(Boolean)] *)
Definition configUrls (VITE_API_URL : option string) : list string :=
  "/config.yaml" ::
  match VITE_API_URL with
  | Some u => if env_truthy (Some u) then [u +:+ "/config.yaml"] else []
  | None => []
  end.

(** The body of the [try] block for one candidate: [Some url] when the
    function returns from inside the loop, [None] when the loop goes on (the
    fetch failed and was caught, the response was not ok, or the text has
    no match). *)
Definition try_config (net : Network) (url : string) : option string :=
  match fetch net (mkRequest url "GET" None) with
  | Return response =>
      if r_ok response then
        match regex_match url_pattern (r_text response) with
        | Some m1 => Some (trim m1)
        | None => None
        end
      else None
  | Throw _ => None
  end.

Fixpoint first_config (net : Network) (urls : list string) : option string :=
  match urls with
  | [] => None
  | url :: rest =>
      match try_config net url with
      | Some u => Some u
      | None => first_config net rest
      end
  end.

(** [VITE_API_URL || 'http://localhost:8123'] *)
Definition fallback_url (VITE_API_URL : option string) : string :=
  match VITE_API_URL with
  | Some u => if env_truthy (Some u) then u else "http://localhost:8123"
  | None => "http://localhost:8123"
  end.

(** [initConfig()]: the value the promise resolves with, and the module
    afterwards. *)
Definition initConfig (VITE_API_URL : option string) (net : Network)
    (cfg : Config) : string * Config :=
  let url :=
    match first_config net (configUrls VITE_API_URL) with
    | Some u => u
    | None => fallback_url VITE_API_URL
    end in
  (url, mkConfig (Some url)).

(** [getBackendUrl()]: [!backendUrl] holds for [null] and for the empty
    string. *)
Definition getBackendUrl (cfg : Config) : Outcome string :=
  match backendUrl cfg with
  | Some u =>
      if negb (truthy (JStr u))
      then Throw (Error (JStr "Config not initialized. Call initConfig() first."))
      else Return u
  | None => Throw (Error (JStr "Config not initialized. Call initConfig() first."))
  end.

(** * JavaScript strings in full *)

(** A JavaScript string is a sequence of 16-bit code units.  The texts
    that the configuration and the API client handle are modelled by
    [string], that is with code units below 256; the plain text that goes
    through the cipher is modelled in full, as the sequence of its code
    units, because the cipher library treats surrogates on their own. *)
Definition JsString := list N.

(** Every element is a code unit, below 2^16. *)
Definition js_string (s : JsString) : bool :=
  forallb (λ u, u <? 0x10000)%N s.

(** A text with code units below 256, as a JavaScript string. *)
Definition of_string (s : string) : JsString :=
  N_of_ascii <$> list_ascii_of_string s.

(** Lead surrogates are D800 to DBFF, trail surrogates DC00 to DFFF. *)
Definition is_lead (u : N) : bool := (0xD800 <=? u)%N && (u <=? 0xDBFF)%N.

Definition is_trail (u : N) : bool := (0xDC00 <=? u)%N && (u <=? 0xDFFF)%N.

(** Whether the string has a surrogate that is not part of a pair, a lead
    followed by a trail: the strings on which [encodeURIComponent] throws
    a [URIError]. *)
Fixpoint lone_surrogate (s : JsString) : bool :=
  match s with
  | [] => false
  | u :: rest =>
      if is_lead u then
        match rest with
        | v :: rest' => if is_trail v then lone_surrogate rest' else true
        | [] => true
        end
      else if is_trail u then true
      else lone_surrogate rest
  end.

(** A JavaScript string in which every surrogate is part of a pair. *)
Definition well_formed (s : JsString) : bool :=
  js_string s && negb (lone_surrogate s).

(** * encryption.js: AES under a PBKDF2-derived key *)

(** The part of the CryptoJS library that the module calls.  The library is
    a dependency of the front-end, not part of it, so it is an interface
    here.  The library turns every string that it is given as a password,
    a salt or a message into bytes with [CryptoJS.enc.Utf8.parse], which
    throws a [URIError] on an unpaired surrogate: [PBKDF2] is the key
    derivation from a password and a salt that are strings ([None]: that
    error); [Utf8_parse] is the parser itself ([None]: that error), and
    [AES_encrypt] encrypts the parsed bytes of a message under a
    passphrase; [Salt] is the random salt that it draws for the
    passphrase; [toString_Utf8] is
    [wordArray.toString(CryptoJS.enc.Utf8)], which throws on bytes that are
    not UTF-8 ([None]). *)
Class CryptoJS := {
  WordArray : Type;
  CipherParams : Type;
  Salt : Type;
  PBKDF2 : JsString → JsString → nat → nat → option WordArray;
  toString_Hex : WordArray → string;
  Utf8_parse : JsString → option WordArray;
  AES_encrypt : WordArray → string → Salt → CipherParams;
  CipherParams_toString : CipherParams → string;
  AES_decrypt : string → string → WordArray;
  toString_Utf8 : WordArray → option JsString
}.

(** What the module relies on, one law for each library call or pair of
    calls: the key derivation fails exactly when the password or the salt
    has an unpaired surrogate; the UTF-8 parser fails exactly on the
    strings with an unpaired surrogate; the UTF-8 decoder gives back the
    string that was parsed; and decrypting, under the passphrase it was
    encrypted with, the serialisation of a ciphertext gives back the
    encrypted bytes. *)
Class CryptoJS_correct (L : CryptoJS) := {
  PBKDF2_fails : ∀ (password salt : JsString) (keySize iterations : nat),
    js_string password = true → js_string salt = true →
    (PBKDF2 password salt keySize iterations = None
     ↔ lone_surrogate password = true ∨ lone_surrogate salt = true);
  Utf8_parse_fails : ∀ s : JsString,
    js_string s = true → (Utf8_parse s = None ↔ lone_surrogate s = true);
  Utf8_roundtrip : ∀ (s : JsString) (words : WordArray),
    js_string s = true → Utf8_parse s = Some words →
    toString_Utf8 words = Some s;
  AES_roundtrip : ∀ (message : WordArray) (passphrase : string) (salt : Salt),
    AES_decrypt (CipherParams_toString (AES_encrypt message passphrase salt))
                passphrase
    = message
}.

(** [encryptionConfig], [null] until [initEncryption] has stored the
    passphrase and the salt fetched from the server, two strings. *)
Record EncryptionConfig := mkEncryptionConfig {
  passphrase : JsString;
  salt : JsString
}.

Record Encryption := mkEncryption {
  encryptionConfig : option EncryptionConfig
}.

(** A passphrase and a salt in which every surrogate is part of a pair. *)
Definition config_ok (c : EncryptionConfig) : bool :=
  well_formed (passphrase c) && well_formed (salt c).

Definition not_initialized : JsError :=
  Error (JStr "Encryption not initialized").

Definition malformed_utf8 : JsError := Error (JStr "Malformed UTF-8 data").

Section Encryption.
Context {L : CryptoJS}.

(** [CryptoJS.PBKDF2(password, salt, { keySize, iterations })] for a
    password and a salt that are strings. *)
Definition PBKDF2_string (password salt : JsString)
    (keySize iterations : nat) : Outcome WordArray :=
  match PBKDF2 password salt keySize iterations with
  | Some key => Return key
  | None => Throw URIError
  end.

(** [CryptoJS.AES.encrypt(message, passphrase)] for a message that is a
    string: the string is parsed as UTF-8 and the bytes are encrypted. *)
Definition AES_encrypt_string (message : JsString) (passphrase : string)
    (rnd : Salt) : Outcome CipherParams :=
  match Utf8_parse message with
  | Some words => Return (AES_encrypt words passphrase rnd)
  | None => Throw URIError
  end.

(** [encrypt(data)]; [rnd] is the salt the library draws. *)
Definition encrypt (enc : Encryption) (rnd : Salt) (data : JsString)
    : Outcome string :=
  match encryptionConfig enc with
  | None => Throw not_initialized
  | Some c =>
      key ← PBKDF2_string (passphrase c) (salt c) (256 / 32) 1000;
      encrypted ← AES_encrypt_string data (toString_Hex key) rnd;
      mret (CipherParams_toString encrypted)
  end.

(** [decrypt(encryptedData)] *)
Definition decrypt (enc : Encryption) (encryptedData : string)
    : Outcome JsString :=
  match encryptionConfig enc with
  | None => Throw not_initialized
  | Some c =>
      key ← PBKDF2_string (passphrase c) (salt c) (256 / 32) 1000;
      let decrypted := AES_decrypt encryptedData (toString_Hex key) in
      match toString_Utf8 decrypted with
      | Some text => Return text
      | None => Throw malformed_utf8
      end
  end.
End Encryption.

(** * api.js: the HTTP client *)

(** [getApiBase()] *)
Definition getApiBase (cfg : Config) : Outcome string :=
  base ← getBackendUrl cfg; mret (base +:+ "/api/v1").

(** [joinSession(sessionId, userName)]; [userName] is a string or [null]. *)
Definition joinSession (cfg : Config) (net : Network)
    (sessionId : string) (userName : JsValue) : Outcome JsValue :=
  api ← getApiBase cfg;
  response ← fetch net
    (mkRequest (api +:+ "/session/join") "POST"
       (Some (JObj [("session_id", JStr sessionId); ("user_name", userName)])));
  if negb (r_ok response) then
    error ← json response;
    detail ← get_prop error "detail";
    Throw (Error (js_or detail (JStr "Failed to join session")))
  else
    data ← json response;
    mret data.

(** [getDownloadUrl(sessionId, blockId)] *)
Definition getDownloadUrl (cfg : Config) (sessionId : string) (blockId : N)
    : Outcome string :=
  api ← getApiBase cfg;
  mret (api +:+ "/block/download/" +:+ sessionId +:+ "/" +:+ pretty blockId).

(** [downloadBlock(sessionId, blockId)]; the result is the decrypted
    text, or the text of the response as it is. *)
Definition downloadBlock {L : CryptoJS} (cfg : Config) (enc : Encryption)
    (net : Network) (sessionId : string) (blockId : N) : Outcome JsString :=
  url ← getDownloadUrl cfg sessionId blockId;
  response ← fetch net (mkRequest url "GET" None);
  let encryptedData := r_text response in
  try_catch
    (decryptedText ← decrypt enc encryptedData; mret decryptedText)
    (λ _, Return (of_string encryptedData)).

(** * The session core *)

Module Core.

(** Modelled from the spec: the back-end (session registry, block ledger,
    eviction sweeper) is not among the source files; this is the error
    taxonomy of its section 7. *)
Inductive CoreError :=
  | NotFound | Forbidden | JoinDisabled | PayloadTooLarge | Conflict.

(** Modelled from the spec: the back-end is missing; the outcome of a
    core operation is a value or one error of the taxonomy. *)
Inductive Result (A : Type) :=
  | Ok (a : A)
  | Err (e : CoreError).
Arguments Ok {A} a.
Arguments Err {A} e.

(** Modelled from the spec: the back-end is missing; a User of the data
    model (section 3), with the time it joined. *)
Record Member := mkMember {
  uid : string;
  display_name : string;
  is_host : bool;
  joined_at : Z
}.

(** Modelled from the spec: the back-end is missing; the two kinds of
    block of the data model. *)
Inductive BlockKind := text | file.

(** Modelled from the spec: the back-end is missing; what a client
    submits to [append]: kind, opaque content, size and creator. *)
Record NewBlock := mkNewBlock {
  nb_kind : BlockKind;
  nb_content : string;
  nb_size : N;
  nb_creator : string
}.

(** Modelled from the spec: the back-end is missing; a Block of the data
    model, with the ID the ledger gave it. *)
Record Entry := mkEntry {
  block_id : N;
  payload : NewBlock;
  created_at : Z
}.

(** Modelled from the spec: the back-end is missing; the Block Ledger
    (section 4.2): the ordered sequence of blocks and the next ID to
    assign. *)
Record Ledger := mkLedger {
  next_id : N;
  entries : list Entry
}.

(** Modelled from the spec: the back-end is missing; the ledger of a new
    session, with no block and the first ID to assign. *)
Definition empty_ledger : Ledger := mkLedger 0 [].

(** Modelled from the spec: the back-end is missing; [append(block)]
    assigns the next ID, enforces the maximum size for [file] blocks and
    appends to the sequence. *)
Definition append (max_size : N) (now : Z) (b : NewBlock) (l : Ledger)
    : Result (N * Ledger) :=
  match nb_kind b with
  | file =>
      if (max_size <? nb_size b)%N then Err PayloadTooLarge
      else Ok (next_id l,
               mkLedger (N.succ (next_id l))
                        (entries l ++ [mkEntry (next_id l) b now]))
  | text =>
      Ok (next_id l,
          mkLedger (N.succ (next_id l))
                   (entries l ++ [mkEntry (next_id l) b now]))
  end.

(** Modelled from the spec: the back-end is missing; whether a block with
    this ID is in the sequence. *)
Definition has_block (id : N) (l : Ledger) : bool :=
  existsb (λ e, (block_id e =? id)%N) (entries l).

(** Modelled from the spec: the back-end is missing; [remove(blockId)]
    fails with [NotFound] if absent and removes from the sequence. *)
Definition remove (id : N) (l : Ledger) : Result Ledger :=
  if has_block id l
  then Ok (mkLedger (next_id l) (filter (λ e, block_id e ≠ id) (entries l)))
  else Err NotFound.


(** Modelled from the spec: the back-end is missing; a request to a
    ledger, and the IDs that a run of requests assigns, in order. *)
Inductive LedgerOp :=
  | Append (now : Z) (b : NewBlock)
  | Remove (id : N).

(** Modelled from the spec: the back-end is missing; the IDs assigned by
    a run of requests, and the ledger after it.  A request that fails
    leaves the ledger as it is. *)
Fixpoint run_ledger (max_size : N) (ops : list LedgerOp) (l : Ledger)
    : list N * Ledger :=
  match ops with
  | [] => ([], l)
  | Append now b :: rest =>
      match append max_size now b l with
      | Ok (id, l') =>
          let '(ids, l'') := run_ledger max_size rest l' in (id :: ids, l'')
      | Err _ => run_ledger max_size rest l
      end
  | Remove id :: rest =>
      match remove id l with
      | Ok l' => run_ledger max_size rest l'
      | Err _ => run_ledger max_size rest l
      end
  end.

(** Modelled from the spec: the back-end is missing; a Session of the
    data model (section 3).  [empty_since] is the time at which the last
    member left, if the membership is empty. *)
Record Session := mkSession {
  host_id : string;
  allow_join : bool;
  created : Z;
  last_activity : Z;
  members : list Member;
  ledger : Ledger;
  empty_since : option Z
}.

(** Modelled from the spec: the back-end is missing; the configuration of
    section 6: maximum upload size, inactivity threshold, and the grace
    window for a session without members. *)
Record Settings := mkSettings {
  max_upload : N;
  threshold : Z;
  grace : Z
}.


(** Modelled from the spec: the back-end is missing; the registry maps
    session IDs, in their canonical lower-case form, to sessions. *)
Abbreviation Registry := (gmap string Session).


(** Modelled from the spec: the back-end is missing; membership of a user
    ID in a session. *)
Definition is_member (u : string) (s : Session) : bool :=
  existsb (λ m, String.eqb (uid m) u) (members s).

(** Modelled from the spec: the back-end is missing; the first candidate
    ID that does not collide with a registered session. *)
Fixpoint fresh_id (candidates : list string) (reg : Registry)
    : option string :=
  match candidates with
  | [] => None
  | c :: rest =>
      match reg !! c with
      | None => Some c
      | Some _ => fresh_id rest reg
      end
  end.

(** Modelled from the spec: the back-end is missing; [create(userName?)]:
    a fresh ID (retry on collision over the drawn [candidates]), the
    creator as host, [allow_join = true].  [None]: every candidate drawn
    so far collides and the draw goes on. *)
Definition create (candidates : list string) (u name : string) (now : Z)
    (reg : Registry) : option ((string * string * bool) * Registry) :=
  match fresh_id candidates reg with
  | Some sid =>
      Some ((sid, u, true),
            <[sid := mkSession u true now now [mkMember u name true now]
                               empty_ledger None]> reg)
  | None => None
  end.

(** Modelled from the spec: the back-end is missing;
    [join(sessionId, userName?) -> (userId, isHost=false)]. *)
Definition join (sid u name : string) (now : Z) (reg : Registry)
    : Result ((string * bool) * Registry) :=
  match reg !! sid with
  | None => Err NotFound
  | Some s =>
      if allow_join s then
        Ok ((u, false),
            <[sid := mkSession (host_id s) (allow_join s) (created s) now
                       (members s ++ [mkMember u name false now])
                       (ledger s) None]> reg)
      else Err JoinDisabled
  end.


(** Modelled from the spec: the back-end is missing;
    [transferHost(sessionId, requesterId, targetId)]. *)
Definition transferHost (sid requester target : string) (now : Z)
    (reg : Registry) : Result Registry :=
  match reg !! sid with
  | None => Err NotFound
  | Some s =>
      if negb (String.eqb requester (host_id s)) then Err Forbidden
      else if negb (is_member target s) then Err NotFound
      else
        Ok (<[sid := mkSession target (allow_join s) (created s) now
                 ((λ m, mkMember (uid m) (display_name m)
                                 (String.eqb (uid m) target) (joined_at m))
                    <$> members s)
                 (ledger s) (empty_since s)]> reg)
  end.

(** Modelled from the spec: the back-end is missing;
    [toggleJoin(sessionId, requesterId, value)]. *)
Definition toggleJoin (sid requester : string) (value : bool) (now : Z)
    (reg : Registry) : Result Registry :=
  match reg !! sid with
  | None => Err NotFound
  | Some s =>
      if negb (String.eqb requester (host_id s)) then Err Forbidden
      else
        Ok (<[sid := mkSession (host_id s) value (created s) now
                       (members s) (ledger s) (empty_since s)]> reg)
  end.

(** Modelled from the spec: the back-end is missing;
    [destroy(sessionId, requesterId)]. *)
Definition destroy (sid requester : string) (reg : Registry)
    : Result Registry :=
  match reg !! sid with
  | None => Err NotFound
  | Some s =>
      if negb (String.eqb requester (host_id s)) then Err Forbidden
      else Ok (delete sid reg)
  end.

(** Modelled from the spec: the back-end is missing; the member that
    joined first and, of two that joined at the same time, the one that
    comes first in the sequence. *)
Fixpoint earliest (ms : list Member) : option Member :=
  match ms with
  | [] => None
  | m :: rest =>
      match earliest rest with
      | Some m' => if (joined_at m' <? joined_at m)%Z then Some m' else Some m
      | None => Some m
      end
  end.

(** Modelled from the spec: the back-end is missing;
    [removeUser(sessionId, userId)]: if the removed user was host, the
    longest-connected remaining user is promoted; if no user remains the
    session is left for the sweeper. *)
Definition removeUser (sid u : string) (now : Z) (reg : Registry)
    : Registry :=
  match reg !! sid with
  | None => reg
  | Some s =>
      let rest := filter (λ m, uid m ≠ u) (members s) in
      let since :=
        match rest with
        | [] => Some (default now (empty_since s))
        | _ => None
        end in
      if String.eqb u (host_id s) then
        match earliest rest with
        | Some h =>
            <[sid := mkSession (uid h) (allow_join s) (created s)
                       (last_activity s)
                       ((λ m, mkMember (uid m) (display_name m)
                                (String.eqb (uid m) (uid h)) (joined_at m))
                          <$> rest)
                       (ledger s) since]> reg
        | None =>
            <[sid := mkSession (host_id s) (allow_join s) (created s)
                       (last_activity s) rest (ledger s) since]> reg
        end
      else
        <[sid := mkSession (host_id s) (allow_join s) (created s)
                   (last_activity s) rest (ledger s) since]> reg
  end.

(** Modelled from the spec: the back-end is missing; posting a block:
    the session must exist, the actor must be a member, and the ledger
    accepts the block. *)
Definition postBlock (cfg : Settings) (sid u : string) (b : NewBlock)
    (now : Z) (reg : Registry) : Result (N * Registry) :=
  match reg !! sid with
  | None => Err NotFound
  | Some s =>
      if negb (is_member u s) then Err Forbidden
      else
        match append (max_upload cfg) now b (ledger s) with
        | Ok (id, l') =>
            Ok (id, <[sid := mkSession (host_id s) (allow_join s)
                               (created s) now (members s) l'
                               (empty_since s)]> reg)
        | Err e => Err e
        end
  end.

(** Modelled from the spec: the back-end is missing; deleting a block. *)
Definition deleteBlock (sid u : string) (id : N) (now : Z) (reg : Registry)
    : Result Registry :=
  match reg !! sid with
  | None => Err NotFound
  | Some s =>
      match remove id (ledger s) with
      | Ok l' =>
          Ok (<[sid := mkSession (host_id s) (allow_join s) (created s)
                         now (members s) l' (empty_since s)]> reg)
      | Err e => Err e
      end
  end.

(** Modelled from the spec: the back-end is missing; the sweeper's test
    (section 4.5): the time since the last activity exceeds the threshold,
    or the membership has been empty past the grace window. *)
Definition expired (cfg : Settings) (now : Z) (s : Session) : bool :=
  (threshold cfg <? now - last_activity s)%Z
  || match members s, empty_since s with
     | [], Some t => (grace cfg <? now - t)%Z
     | _, _ => false
     end.

(** Modelled from the spec: the back-end is missing; one sweep cycle
    removes every expired session. *)
Definition sweep (cfg : Settings) (now : Z) (reg : Registry) : Registry :=
  filter (λ kv, expired cfg now kv.2 = false) reg.

(** Modelled from the spec: the back-end is missing; the requests that
    the coordinator and the sweeper make to the registry. *)
Inductive Op :=
  | OCreate (candidates : list string) (u name : string)
  | OJoin (sid u name : string)
  | OTransferHost (sid requester target : string)
  | OToggleJoin (sid requester : string) (value : bool)
  | ODestroy (sid requester : string)
  | ORemoveUser (sid u : string)
  | OPostBlock (sid u : string) (b : NewBlock)
  | ODeleteBlock (sid u : string) (id : N)
  | OSweep.

(** Modelled from the spec: the back-end is missing; a request that fails
    leaves the registry as it is. *)
Definition or_keep {A} (reg : Registry) (r : Result A) (f : A → Registry)
    : Registry :=
  match r with
  | Ok a => f a
  | Err _ => reg
  end.

(** Modelled from the spec: the back-end is missing; the registry after
    one request made at time [now]. *)
Definition apply (cfg : Settings) (now : Z) (op : Op) (reg : Registry)
    : Registry :=
  match op with
  | OCreate candidates u name =>
      match create candidates u name now reg with
      | Some (_, reg') => reg'
      | None => reg
      end
  | OJoin sid u name => or_keep reg (join sid u name now reg) snd
  | OTransferHost sid r t => or_keep reg (transferHost sid r t now reg) id
  | OToggleJoin sid r v => or_keep reg (toggleJoin sid r v now reg) id
  | ODestroy sid r => or_keep reg (destroy sid r reg) id
  | ORemoveUser sid u => removeUser sid u now reg
  | OPostBlock sid u b => or_keep reg (postBlock cfg sid u b now reg) snd
  | ODeleteBlock sid u i => or_keep reg (deleteBlock sid u i now reg) id
  | OSweep => sweep cfg now reg
  end.

(** Modelled from the spec: the back-end is missing; a run of timed
    requests. *)
Fixpoint run (cfg : Settings) (ops : list (Z * Op)) (reg : Registry)
    : Registry :=
  match ops with
  | [] => reg
  | (now, op) :: rest => run cfg rest (apply cfg now op reg)
  end.


End Core.

(** * useWebSocket: the connection hook as an event system *)

(** [WebSocket.readyState] *)
Inductive ReadyState := CONNECTING | OPEN | CLOSING | CLOSED.

#[global] Instance ReadyState_eq_dec : EqDecision ReadyState.
Proof. solve_decision. Defined.

Inductive TimerKind := Interval | Timeout.

#[global] Instance TimerKind_eq_dec : EqDecision TimerKind.
Proof. solve_decision. Defined.

(** A timer of the event loop: when it is next due (milliseconds) and
    whether it is still set.  A timer's ID is its position in the list of
    timers created so far. *)
Record Timer := mkTimer {
  t_kind : TimerKind;
  t_due : Z;
  t_active : bool
}.

(** A frame handed to [send]: when, on which socket, and the [type] field
    of the JSON text. *)
Record Frame := mkFrame {
  f_time : Z;
  f_socket : nat;
  f_type : string
}.

(** The refs and state of the hook, and the part of the browser it
    drives: the clock, every WebSocket created so far (a socket's
    number is its position), the timers, and the frames sent. *)
Record Hook := mkHook {
  isConnected : bool;
  wsRef : option nat;
  reconnectTimeoutRef : option nat;
  pingIntervalRef : option nat;
  clock : Z;
  sockets : list ReadyState;
  timers : list Timer;
  sent : list Frame
}.

Definition initial_hook : Hook :=
  mkHook false None None None 0 [] [] [].

Definition setIsConnected (b : bool) (h : Hook) : Hook :=
  mkHook b (wsRef h) (reconnectTimeoutRef h) (pingIntervalRef h) (clock h)
         (sockets h) (timers h) (sent h).

(** [clearInterval(id)] and [clearTimeout(id)]. *)
Definition clearTimer (id : nat) (h : Hook) : Hook :=
  mkHook (isConnected h) (wsRef h) (reconnectTimeoutRef h)
         (pingIntervalRef h) (clock h) (sockets h)
         (alter (λ t, mkTimer (t_kind t) (t_due t) false) id (timers h))
         (sent h).

(** [if (ref.current) clear(ref.current)]: a timer ID is never zero, so
    the test fails only for [null]. *)
Definition clear_ref (ref : option nat) (h : Hook) : Hook :=
  match ref with
  | Some id => clearTimer id h
  | None => h
  end.

(** [connect()]: [wsRef.current = new WebSocket(fullWsUrl)], with the four
    handlers attached to the new socket (the backend URL is configured, so
    [getBackendUrl] returns). *)
Definition connect (h : Hook) : Hook :=
  mkHook (isConnected h) (Some (length (sockets h))) (reconnectTimeoutRef h)
         (pingIntervalRef h) (clock h) (sockets h ++ [CONNECTING])
         (timers h) (sent h).

(** The callback of [setInterval]:
    [if (wsRef.current?.readyState === WebSocket.OPEN) wsRef.current.send(ping)]. *)
Definition ping_callback (h : Hook) : Hook :=
  match wsRef h with
  | Some s =>
      if decide (sockets h !! s = Some OPEN) then
        mkHook (isConnected h) (wsRef h) (reconnectTimeoutRef h)
               (pingIntervalRef h) (clock h) (sockets h) (timers h)
               (sent h ++ [mkFrame (clock h) s "ping"])
      else h
  | None => h
  end.

(** [onopen]: [pingIntervalRef.current = setInterval(callback, 30000)]. *)
Definition onopen (h : Hook) : Hook :=
  let h := setIsConnected true h in
  mkHook (isConnected h) (wsRef h) (reconnectTimeoutRef h)
         (Some (length (timers h))) (clock h) (sockets h)
         (timers h ++ [mkTimer Interval (clock h + 30000) true]) (sent h).

(** [onclose]: the interval in [pingIntervalRef] is cleared and
    [reconnectTimeoutRef.current = setTimeout(() => connect(), 3000)]. *)
Definition onclose (h : Hook) : Hook :=
  let h := setIsConnected false h in
  let h := clear_ref (pingIntervalRef h) h in
  mkHook (isConnected h) (wsRef h) (Some (length (timers h)))
         (pingIntervalRef h) (clock h) (sockets h)
         (timers h ++ [mkTimer Timeout (clock h + 3000) true]) (sent h).

(** [onerror] *)
Definition onerror (h : Hook) : Hook := setIsConnected false h.

(** [socket.close()]: a socket that is connecting or open starts closing. *)
Definition close_socket (s : nat) (h : Hook) : Hook :=
  mkHook (isConnected h) (wsRef h) (reconnectTimeoutRef h)
         (pingIntervalRef h) (clock h)
         (alter (λ r, match r with
                      | CONNECTING | OPEN => CLOSING
                      | r => r
                      end) s (sockets h))
         (timers h) (sent h).

(** The function that the effect returns. *)
Definition cleanup (h : Hook) : Hook :=
  let h := clear_ref (pingIntervalRef h) h in
  let h := clear_ref (reconnectTimeoutRef h) h in
  match wsRef h with
  | Some s => close_socket s h
  | None => h
  end.

Definition set_ready (s : nat) (r : ReadyState) (h : Hook) : Hook :=
  mkHook (isConnected h) (wsRef h) (reconnectTimeoutRef h)
         (pingIntervalRef h) (clock h) (<[s := r]> (sockets h))
         (timers h) (sent h).

Definition set_due (id : nat) (due : Z) (h : Hook) : Hook :=
  mkHook (isConnected h) (wsRef h) (reconnectTimeoutRef h)
         (pingIntervalRef h) (clock h) (sockets h)
         (alter (λ t, mkTimer (t_kind t) due (t_active t)) id (timers h))
         (sent h).

Definition advance (ms : Z) (h : Hook) : Hook :=
  mkHook (isConnected h) (wsRef h) (reconnectTimeoutRef h)
         (pingIntervalRef h) (clock h + ms) (sockets h) (timers h) (sent h).

(** What happens to the hook: React runs the effect (with a session and a
    user ID) or its cleanup, time passes, the browser reports that a
    socket opened, closed or failed, or a timer comes due. *)
Inductive Event :=
  | EffectRun
  | EffectCleanup
  | Elapse (ms : Z)
  | SocketOpened (s : nat)
  | SocketClosed (s : nat)
  | SocketError (s : nat)
  | TimerDue (id : nat).

(** No timer that is still set comes due before [t]. *)
Definition none_due_before (t : Z) (h : Hook) : bool :=
  forallb (λ tm, negb (t_active tm) || (t <=? t_due tm)%Z) (timers h).

(** One event; [None] when the event cannot happen in this state (a socket
    opens only while connecting, a timer fires only when it is set and due,
    time does not run past a timer that is due). *)
Definition step (e : Event) (h : Hook) : option Hook :=
  match e with
  | EffectRun => Some (connect h)
  | EffectCleanup => Some (cleanup h)
  | Elapse ms =>
      if (0 <=? ms)%Z && none_due_before (clock h + ms) h
      then Some (advance ms h) else None
  | SocketOpened s =>
      match sockets h !! s with
      | Some CONNECTING => Some (onopen (set_ready s OPEN h))
      | _ => None
      end
  | SocketClosed s =>
      match sockets h !! s with
      | Some CLOSED | None => None
      | Some _ => Some (onclose (set_ready s CLOSED h))
      end
  | SocketError s =>
      match sockets h !! s with
      | Some CONNECTING | Some OPEN => Some (onerror h)
      | _ => None
      end
  | TimerDue id =>
      match timers h !! id with
      | Some tm =>
          if t_active tm && (t_due tm =? clock h)%Z then
            match t_kind tm with
            | Interval => Some (ping_callback (set_due id (t_due tm + 30000) h))
            | Timeout => Some (connect (clearTimer id h))
            end
          else None
      | None => None
      end
  end.

Fixpoint run_events (es : list Event) (h : Hook) : option Hook :=
  match es with
  | [] => Some h
  | e :: rest =>
      match step e h with
      | Some h' => run_events rest h'
      | None => None
      end
  end.

(** The interval timers that are still set. *)
Definition live_intervals (h : Hook) : list Timer :=
  filter (λ tm, t_kind tm = Interval ∧ t_active tm = true) (timers h).

(** The pings sent on socket [s]. *)
Definition pings_on (s : nat) (h : Hook) : list Z :=
  f_time <$> filter (λ f, f_socket f = s ∧ f_type f = "ping") (sent h).

(** ** Sample data *)

Definition alice : User := mkUser "u-alice" "Alice" true.
Definition bob : User := mkUser "u-bob" "Bob" false.
Definition carol : User := mkUser "u-carol" "Carol" false.

Definition note (id : N) : Block :=
  mkBlock id "text" "U2FsdGVkX1" EmptyString "2025-01-01T00:00:00".

(** A message with tag [type] whose payload names user [uid] and block
    [bid]. *)
Definition message_for (type uid : string) (bid : N) : Message :=
  mkMessage type carol uid (note bid) bid uid false.

Definition sample_state : State :=
  mkState
    (Some (mkSession (Some "k3x9qa") (Some "u-alice") (Some true) None None))
    [note 1; note 2; note 3] [alice; bob] None false.

(** The double quote character, and the [config.yaml] that the installer
    writes when the base URL it asks for is left empty: the [url] entry with
    an empty quoted value. *)
Definition dquote : string := String (ascii_of_nat 34) EmptyString.

Definition empty_url_yaml : string :=
  "backend:" +:+ String (ascii_of_nat 10) EmptyString
  +:+ "  url: " +:+ dquote +:+ dquote +:+ String (ascii_of_nat 10) EmptyString.

(** A network on which every request is answered with status 200 and the
    text [body]. *)
Definition serves (body : string) : Network :=
  λ _, Responded (mkResponse true body None).

(** A network that is down. *)
Definition offline : Network := λ _, NetworkError "Failed to fetch".

(** A candidate that does not yield a URL: the fetch fails, the response is
    not ok, or its text has no match. *)
Definition candidate_fails (net : Network) (url : string) : Prop :=
  match net (mkRequest url "GET" None) with
  | NetworkError _ => True
  | Responded r => r_ok r = false ∨ regex_match url_pattern (r_text r) = None
  end.

(** ** A small stand-in for the cipher library

    Strings are parsed into UTF-8 bytes as [encodeURIComponent] does it (a
    surrogate pair is one code point of four bytes, an unpaired surrogate
    is refused), the cipher is a byte-wise exclusive-or with a key byte
    computed from the passphrase and the salt, the serialised ciphertext is
    the salt followed by the cipher bytes, and the decoder accepts
    well-formed UTF-8 only.  It has the shape of the library and satisfies
    [CryptoJS_correct]; it is used to run the module on concrete inputs. *)

Definition xor_ascii (a b : ascii) : ascii :=
  match a, b with
  | Ascii a0 a1 a2 a3 a4 a5 a6 a7, Ascii b0 b1 b2 b3 b4 b5 b6 b7 =>
      Ascii (xorb a0 b0) (xorb a1 b1) (xorb a2 b2) (xorb a3 b3)
            (xorb a4 b4) (xorb a5 b5) (xorb a6 b6) (xorb a7 b7)
  end.

(** The UTF-8 bytes of a code point. *)
Definition utf8_bytes (cp : N) : list N :=
  (if cp <? 0x80 then [cp]
   else if cp <? 0x800 then [0xC0 + cp / 64; 0x80 + cp mod 64]
   else if cp <? 0x10000 then
     [0xE0 + cp / 4096; 0x80 + (cp / 64) mod 64; 0x80 + cp mod 64]
   else
     [0xF0 + cp / 262144; 0x80 + (cp / 4096) mod 64;
      0x80 + (cp / 64) mod 64; 0x80 + cp mod 64])%N.

(** The code point of a surrogate pair. *)
Definition pair_code_point (u v : N) : N :=
  (0x10000 + (u - 0xD800) * 0x400 + (v - 0xDC00))%N.

Definition utf8_encode_point (cp : N) : list ascii :=
  ascii_of_N <$> utf8_bytes cp.

Fixpoint utf8_encode (s : JsString) : option (list ascii) :=
  match s with
  | [] => Some []
  | u :: rest =>
      if is_lead u then
        match rest with
        | v :: rest' =>
            if is_trail v
            then app (utf8_encode_point (pair_code_point u v))
                   <$> utf8_encode rest'
            else None
        | [] => None
        end
      else if is_trail u then None
      else app (utf8_encode_point u) <$> utf8_encode rest
  end.

(** A continuation byte, 80 to BF. *)
Definition is_cont (b : N) : bool := (0x80 <=? b)%N && (b <? 0xC0)%N.

(** The code units of a code point. *)
Definition code_units (cp : N) : JsString :=
  (if cp <? 0x10000 then [cp]
   else [0xD800 + (cp - 0x10000) / 0x400;
         0xDC00 + (cp - 0x10000) mod 0x400])%N.

Fixpoint utf8_decode (bs : list ascii) : option JsString :=
  match bs with
  | [] => Some []
  | b0 :: r0 =>
      let n0 := N_of_ascii b0 in
      if (n0 <? 0x80)%N then cons n0 <$> utf8_decode r0
      else if (0xC2 <=? n0)%N && (n0 <? 0xE0)%N then
        match r0 with
        | b1 :: r1 =>
            let n1 := N_of_ascii b1 in
            if is_cont n1
            then cons ((n0 - 0xC0) * 64 + (n1 - 0x80))%N <$> utf8_decode r1
            else None
        | _ => None
        end
      else if (0xE0 <=? n0)%N && (n0 <? 0xF0)%N then
        match r0 with
        | b1 :: b2 :: r2 =>
            let n1 := N_of_ascii b1 in
            let n2 := N_of_ascii b2 in
            let cp := ((n0 - 0xE0) * 4096 + (n1 - 0x80) * 64 + (n2 - 0x80))%N in
            if is_cont n1 && is_cont n2 && (0x800 <=? cp)%N
               && negb (is_lead cp || is_trail cp)
            then cons cp <$> utf8_decode r2
            else None
        | _ => None
        end
      else if (0xF0 <=? n0)%N && (n0 <? 0xF5)%N then
        match r0 with
        | b1 :: b2 :: b3 :: r3 =>
            let n1 := N_of_ascii b1 in
            let n2 := N_of_ascii b2 in
            let n3 := N_of_ascii b3 in
            let cp := ((n0 - 0xF0) * 262144 + (n1 - 0x80) * 4096
                       + (n2 - 0x80) * 64 + (n3 - 0x80))%N in
            if is_cont n1 && is_cont n2 && is_cont n3
               && (0x10000 <=? cp)%N && (cp <? 0x110000)%N
            then app (code_units cp) <$> utf8_decode r3
            else None
        | _ => None
        end
      else None
  end.

Fixpoint string_of_bytes (bs : list ascii) : string :=
  match bs with
  | [] => EmptyString
  | b :: rest => String b (string_of_bytes rest)
  end.

Fixpoint bytes_of_string (s : string) : list ascii :=
  match s with
  | EmptyString => []
  | String c rest => c :: bytes_of_string rest
  end.

Definition key_byte (passphrase : string) : ascii :=
  foldr xor_ascii zero (bytes_of_string passphrase).

Definition Toy : CryptoJS := {|
  WordArray := list ascii;
  CipherParams := ascii * list ascii;
  Salt := ascii;
  PBKDF2 := λ password salt _ _,
    p ← utf8_encode password; s ← utf8_encode salt; Some (p ++ s);
  toString_Hex := string_of_bytes;
  Utf8_parse := utf8_encode;
  AES_encrypt := λ message passphrase rnd,
    (rnd, xor_ascii (xor_ascii rnd (key_byte passphrase)) <$> message);
  CipherParams_toString := λ cp, String cp.1 (string_of_bytes cp.2);
  AES_decrypt := λ text passphrase,
    match text with
    | String rnd body =>
        xor_ascii (xor_ascii rnd (key_byte passphrase)) <$> bytes_of_string body
    | EmptyString => []
    end;
  toString_Utf8 := utf8_decode
|}.

Definition toy_key : EncryptionConfig :=
  mkEncryptionConfig (of_string "correct horse") (of_string "c2FsdA").

Definition toy_config : Encryption := mkEncryption (Some toy_key).

(** A configuration whose passphrase ends in a lead surrogate. *)
Definition unpaired_key : EncryptionConfig :=
  mkEncryptionConfig [0x70; 0x77; 0xD83D]%N (of_string "c2FsdA").

(** A ciphertext that does not come from [encrypt]: under [toy_config] its
    single cipher byte decrypts to the byte 255, which no UTF-8 text
    contains. *)
Definition stray_ciphertext : string :=
  String zero
    (String (xor_ascii (key_byte "correct horsec2FsdA") (ascii_of_nat 255))
            EmptyString).

(** A plain text of seven letters, a text with a character outside the
    basic plane (a surrogate pair), and a string that is one lead
    surrogate with no trail. *)
Definition clip_me : JsString := of_string "clip me".

Definition paired_text : JsString := [0x68; 0x69; 0x20; 0xD83D; 0xDE00]%N.

Definition unpaired_text : JsString := [0x68; 0x69; 0x20; 0xD83D]%N.

(** The request that [joinSession] sends to the API base [api]. *)
Definition join_request (api sessionId : string) (userName : JsValue)
    : Request :=
  mkRequest (api +:+ "/session/join") "POST"
    (Some (JObj [("session_id", JStr sessionId); ("user_name", userName)])).

(** A network that answers every request with the given status flag and
    JSON body. *)
Definition answers (ok : bool) (body : JsValue) : Network :=
  λ _, Responded (mkResponse ok EmptyString (Some body)).

Definition local_config : Config := mkConfig (Some "http://localhost:8123").

(** Every block in the ledger bears an ID below the next one to assign. *)
Definition ledger_ok (l : Core.Ledger) : Prop :=
  ∀ e, e ∈ Core.entries l → (Core.block_id e < Core.next_id l)%N.

Definition text_block (content : string) : Core.NewBlock :=
  Core.mkNewBlock Core.text content 0 "u-alice".

(** A session whose only member is its host, last active at [t]. *)
Definition idle_session (t : Z) : Core.Session :=
  Core.mkSession "u-alice" true 0 t
    [Core.mkMember "u-alice" "Alice" true 0] Core.empty_ledger None.

(** One connection from mount to a close by the server: the socket opens
    after 50 ms, two intervals pass, then the socket closes. *)
Definition single_connection : list Event :=
  [ EffectRun; Elapse 50; SocketOpened 0;
    Elapse 30000; TimerDue 0; Elapse 30000; TimerDue 0;
    Elapse 100; SocketClosed 0 ].

(** The effect is run again while the first socket is open (its
    dependency [onMessage] is a [useCallback] over [users], so it changes
    whenever the user list does): the cleanup closes socket 0 and the
    effect opens socket 1; the close event of socket 0 then schedules a
    reconnect, which three seconds later opens socket 2 although socket 1
    is open; both sockets have started an interval. *)
Definition rerun_while_open : list Event :=
  [ EffectRun; Elapse 50; SocketOpened 0; Elapse 100;
    EffectCleanup; EffectRun; Elapse 20; SocketClosed 0; Elapse 30;
    SocketOpened 1; Elapse 2970; TimerDue 1; Elapse 50; SocketOpened 2;
    Elapse 26980; TimerDue 2; Elapse 3020; TimerDue 3 ].

(** * The menu's view of the users *)

(** [users.find((u) => u.id === sessionData?.user_id)],
    ClipboardInterface.jsx. *)
Definition currentUser (me : string) (us : list User) : option User :=
  find_user me us.

(** [currentUser?.is_host], as a condition (Menu.jsx): [undefined] when
    there is no current user, which is falsy. *)
Definition isHost (current : option User) : bool :=
  match current with
  | Some u => u_is_host u
  | None => false
  end.

(** [isHost && user.id !== sessionData.user_id]: whether the menu shows
    the Make Host button beside [user]. *)
Definition shows_transfer_button (me : string) (current : option User)
    (user : User) : bool :=
  isHost current && negb (String.eqb (u_id user) me).

(** * Statements about strings and patterns *)

(** The greedy loop of a starred atom [a] with continuation [k]: the inner
    loop of [match_here], named. *)
Definition star_loop (a : Atom) (k : string → string → option string)
    : string → string → option string :=
  fix star (s cap : string) : option string :=
    match s with
    | String c s' =>
        if a_class a c then
          match star s' (capture a c cap) with
          | Some r => Some r
          | None => k s cap
          end
        else k s cap
    | EmptyString => k s cap
    end.

(** Every character of [s] satisfies [Q]. *)
Fixpoint all_chars (Q : ascii → bool) (s : string) : Prop :=
  match s with
  | EmptyString => True
  | String c s' => Q c = true ∧ all_chars Q s'
  end.

Definition head_char (s : string) : option ascii :=
  match s with
  | EmptyString => None
  | String c _ => Some c
  end.

Fixpoint last_char (s : string) : option ascii :=
  match s with
  | EmptyString => None
  | String c EmptyString => Some c
  | String _ s' => last_char s'
  end.

(** A character that the capture group of [url_pattern] accepts. *)
Definition url_char (c : ascii) : bool := negb (is_quote c || is_newline c).

(** The fewest characters that a match of [p] adds to the capture. *)
Fixpoint min_captured (p : list Atom) : nat :=
  match p with
  | [] => 0
  | a :: p' =>
      (if a_captured a then
         match a_quant a with One | Plus => 1 | Opt | Star => 0 end
       else 0) + min_captured p'
  end.

(** Whether [s] starts with [pat]. *)
Fixpoint starts_with (pat s : string) : bool :=
  match pat, s with
  | EmptyString, _ => true
  | String a pat', String b s' => Ascii.eqb a b && starts_with pat' s'
  | String _ _, EmptyString => false
  end.

(** No position inside [pre] is the start of the text [url:] in
    [pre +:+ rest]. *)
Fixpoint url_free (pre rest : string) : bool :=
  match pre with
  | EmptyString => true
  | String c pre' =>
      negb (starts_with "url:" (pre +:+ rest)) && url_free pre' rest
  end.

(** The [url] entry as the installer writes it: one blank and the value
    between double quotes. *)
Definition url_entry (value : string) : string :=
  "url: " +:+ dquote +:+ value +:+ dquote.

(** * TextBlockForm *)

(** [handleSubmit] of [TextBlockForm]: [if (content.trim()) onSubmit(content)];
    the result is what is handed to [onSubmit], if anything. *)
Definition TextBlockForm_handleSubmit (content : string) : option string :=
  if truthy (JStr (trim content)) then Some content else None.

(** A continuation of the matcher that only ever extends the capture, by
    at least [n] characters that all satisfy [Q]. *)
Definition adds (Q : ascii → bool) (n : nat)
    (k : string → string → option string) : Prop :=
  ∀ s cap r, k s cap = Some r →
    ∃ add, r = cap +:+ add ∧ all_chars Q add ∧ n ≤ String.length add.

Definition newline : string := String (ascii_of_nat 10) EmptyString.

(** A [config.yaml] with the [url] entry under a [backend] key. *)
Definition yaml_prefix : string := "backend:" +:+ newline +:+ "  ".

(** * api.js: the other requests *)

(** [createSession(userName)] *)
Definition createSession (cfg : Config) (net : Network) (userName : JsValue)
    : Outcome JsValue :=
  api ← getApiBase cfg;
  response ← fetch net
    (mkRequest (api +:+ "/session/create") "POST"
       (Some (JObj [("user_name", userName)])));
  data ← json response;
  mret data.

(** [getSession(sessionId)] *)
Definition getSession (cfg : Config) (net : Network) (sessionId : string)
    : Outcome JsValue :=
  api ← getApiBase cfg;
  response ← fetch net (mkRequest (api +:+ "/session/" +:+ sessionId) "GET" None);
  if negb (r_ok response) then Throw (Error (JStr "Session not found"))
  else
    data ← json response;
    mret data.

(** [destroySession(sessionId, userId)] *)
Definition destroySession (cfg : Config) (net : Network)
    (sessionId userId : string) : Outcome JsValue :=
  api ← getApiBase cfg;
  response ← fetch net
    (mkRequest (api +:+ "/session/destroy?session_id=" +:+ sessionId
                +:+ "&user_id=" +:+ userId) "POST" None);
  json response.

(** [transferHost(sessionId, currentHostId, newHostId)] *)
Definition transferHost (cfg : Config) (net : Network)
    (sessionId currentHostId newHostId : string) : Outcome JsValue :=
  api ← getApiBase cfg;
  response ← fetch net
    (mkRequest (api +:+ "/session/transfer_host") "POST"
       (Some (JObj [("session_id", JStr sessionId);
                    ("current_host_id", JStr currentHostId);
                    ("new_host_id", JStr newHostId)])));
  json response.

(** [toggleJoin(sessionId, userId, allowJoin)] *)
Definition toggleJoin (cfg : Config) (net : Network)
    (sessionId userId : string) (allowJoin : bool) : Outcome JsValue :=
  api ← getApiBase cfg;
  response ← fetch net
    (mkRequest (api +:+ "/session/toggle_join") "POST"
       (Some (JObj [("session_id", JStr sessionId);
                    ("user_id", JStr userId);
                    ("allow_join", JBool allowJoin)])));
  json response.

(** The request of [createTextBlock] for the ciphertext [encryptedContent]. *)
Definition text_block_request (api sessionId userId encryptedContent : string)
    : Request :=
  mkRequest (api +:+ "/block/create") "POST"
    (Some (JObj [("session_id", JStr sessionId);
                 ("user_id", JStr userId);
                 ("type", JStr "text");
                 ("content", JStr encryptedContent)])).

(** [createTextBlock(sessionId, userId, content)]: [encrypt] runs before
    the URL is built; [rnd] is the salt the library draws. *)
Definition createTextBlock {L : CryptoJS} (cfg : Config) (enc : Encryption)
    (rnd : Salt) (net : Network) (sessionId userId : string)
    (content : JsString) : Outcome JsValue :=
  encryptedContent ← encrypt enc rnd content;
  api ← getApiBase cfg;
  response ← fetch net (text_block_request api sessionId userId encryptedContent);
  json response.

(** [deleteBlock(sessionId, userId, blockId)] *)
Definition deleteBlock (cfg : Config) (net : Network)
    (sessionId userId : string) (blockId : N) : Outcome JsValue :=
  api ← getApiBase cfg;
  response ← fetch net
    (mkRequest (api +:+ "/block/delete") "DELETE"
       (Some (JObj [("session_id", JStr sessionId);
                    ("user_id", JStr userId);
                    ("block_id", JNum (Z.of_N blockId))])));
  json response.

(** * The event handlers of the components *)

(** [sessionData]: what [createSession] or [joinSession] returned, of which
    the components read [session_id] and [user_id]. *)
Record SessionData := mkSessionData {
  sd_session_id : string;
  sd_user_id : string
}.

(** What a handler does to the page: the session kept by the
    [SessionProvider] ([None] after [clearSession]), whether
    [window.location.reload] was called, the alerts raised (the text of an
    alert is its prefix followed by the message of the error), and the
    [isCreating] flag of [ClipboardInterface]. *)
Record Page := mkPage {
  p_sessionData : option SessionData;
  p_reloaded : bool;
  p_alerts : list (string * JsError);
  p_isCreating : bool
}.

Definition alert (prefix : string) (err : JsError) (p : Page) : Page :=
  mkPage (p_sessionData p) (p_reloaded p) (p_alerts p ++ [(prefix, err)])
         (p_isCreating p).



Definition setIsCreating (b : bool) (p : Page) : Page :=
  mkPage (p_sessionData p) (p_reloaded p) (p_alerts p) b.


(** [handleTransferHost(newHostId)] of the menu. *)
Definition handleTransferHost (cfg : Config) (net : Network)
    (sd : SessionData) (confirmed : bool) (newHostId : string) (p : Page)
    : Page :=
  if negb confirmed then p
  else
    match transferHost cfg net (sd_session_id sd) (sd_user_id sd) newHostId with
    | Return _ => p
    | Throw err => alert "Failed to transfer host: " err p
    end.

(** [!session.allow_join] for the [session] prop of the menu: reading the
    property of [null] throws, and a missing property is [undefined], whose
    negation is [true]. *)
Definition not_allow_join (session : option Session) : Outcome bool :=
  match session with
  | None =>
      Throw (TypeError "Cannot read properties of null (reading 'allow_join')")
  | Some s =>
      Return (negb (match s_allow_join s with Some b => b | None => false end))
  end.

(** [handleToggleJoin] of the menu. *)
Definition handleToggleJoin (cfg : Config) (net : Network)
    (sd : SessionData) (session : option Session) (p : Page) : Page :=
  match (value ← not_allow_join session;
         toggleJoin cfg net (sd_session_id sd) (sd_user_id sd) value) with
  | Return _ => p
  | Throw err => alert "Failed to toggle join permission: " err p
  end.

(** [handleDeleteBlock(blockId)] of [ClipboardInterface]. *)
Definition handleDeleteBlock (cfg : Config) (net : Network)
    (sd : SessionData) (blockId : N) (p : Page) : Page :=
  match deleteBlock cfg net (sd_session_id sd) (sd_user_id sd) blockId with
  | Return _ => p
  | Throw err => alert "Failed to delete block: " err p
  end.

(** [handleCreateTextBlock(content)] of [ClipboardInterface]. *)
Definition handleCreateTextBlock {L : CryptoJS} (cfg : Config)
    (enc : Encryption) (rnd : Salt) (net : Network) (sd : SessionData)
    (content : JsString) (p : Page) : Page :=
  match createTextBlock cfg enc rnd net (sd_session_id sd) (sd_user_id sd)
          content with
  | Return _ => setIsCreating false p
  | Throw err => alert "Failed to create block: " err p
  end.

(** The effect of [BlockItem] on its [decryptedContent] state: a text
    block with a non-empty content is decrypted, and a failure is shown as
    a fixed text; any other block leaves the state as it is. *)
Definition BlockItem_effect {L : CryptoJS} (enc : Encryption) (block : Block)
    (decryptedContent : JsString) : JsString :=
  if String.eqb (b_type block) "text" && truthy (JStr (b_content block)) then
    match decrypt enc (b_content block) with
    | Return decrypted => decrypted
    | Throw _ => of_string "Failed to decrypt content"
    end
  else decryptedContent.

(** The form state of [SessionEntry]; [se_error] is [None] for the empty
    text and otherwise the error whose message is shown. *)
Record EntryForm := mkEntryForm {
  se_userName : string;
  se_sessionId : string;
  se_error : option JsError;
  se_loading : bool;
  se_sessionData : option JsValue
}.

(** [userName || null] *)
Definition name_or_null (userName : string) : JsValue :=
  js_or (JStr userName) JNull.

(** [handleJoin] of [SessionEntry], from the click to the end of the
    [finally] block. *)
Definition handleJoin (cfg : Config) (net : Network) (f : EntryForm)
    : EntryForm :=
  match joinSession cfg net (se_sessionId f) (name_or_null (se_userName f)) with
  | Return data =>
      mkEntryForm (se_userName f) (se_sessionId f) None false (Some data)
  | Throw err =>
      mkEntryForm (se_userName f) (se_sessionId f) (Some err) false
                  (se_sessionData f)
  end.

(** [handleCreate] of [SessionEntry]. *)
Definition handleCreate (cfg : Config) (net : Network) (f : EntryForm)
    : EntryForm :=
  match createSession cfg net (name_or_null (se_userName f)) with
  | Return data =>
      mkEntryForm (se_userName f) (se_sessionId f) None false (Some data)
  | Throw err =>
      mkEntryForm (se_userName f) (se_sessionId f) (Some err) false
                  (se_sessionData f)
  end.

Definition config_error : JsError :=
  Error (JStr "Config not initialized. Call initConfig() first.").

Definition sample_session : SessionData := mkSessionData "k3x9qa" "u-bob".

Definition blank_page : Page := mkPage (Some sample_session) false [] true.

(** The answer of a server that refuses a request: not ok, with a JSON
    body that carries the reason. *)
Definition refuses (detail : string) : Network :=
  answers false (JObj [("detail", JStr detail)]).

(** * useWebSocket: the socket URL *)

(** Whether [pat] occurs in [s]. *)
Fixpoint occurs (pat s : string) : bool :=
  starts_with pat s
  || match s with
     | String _ s' => occurs pat s'
     | EmptyString => false
     end.

Fixpoint string_drop (n : nat) (s : string) : string :=
  match n, s with
  | S n', String _ s' => string_drop n' s'
  | _, _ => s
  end.

(** [s.replace(pat, rep)] for a string pattern: the first occurrence of
    [pat] is replaced (the replacements used here contain no dollar sign,
    so they are taken literally). *)
Fixpoint replace_first (pat rep s : string) : string :=
  if starts_with pat s then rep +:+ string_drop (String.length pat) s
  else
    match s with
    | String c s' => String c (replace_first pat rep s')
    | EmptyString => EmptyString
    end.

(** [apiUrl.replace('http://', 'ws://').replace('https://', 'wss://')] *)
Definition wsUrl (apiUrl : string) : string :=
  replace_first "https://" "wss://" (replace_first "http://" "ws://" apiUrl).

(** [`${wsUrl}/ws/${sessionId}/${userId}`] *)
Definition fullWsUrl (apiUrl sessionId userId : string) : string :=
  wsUrl apiUrl +:+ "/ws/" +:+ sessionId +:+ "/" +:+ userId.

(** * useWebSocket: one connection *)

(** Mount and the opening of the first socket after [d] ms, and [n]
    periods of 30 seconds at the end of each of which the interval fires. *)
Definition opening (d : Z) : list Event :=
  [EffectRun; Elapse d; SocketOpened 0].

Fixpoint periods (n : nat) : list Event :=
  match n with
  | O => []
  | S n' => Elapse 30000 :: TimerDue 0 :: periods n'
  end.

(** The pings of the first [k] periods of a socket opened at [d]. *)
Definition pings_until (d : Z) (k : nat) : list Frame :=
  (λ j, mkFrame (d + 30000 * (Z.of_nat j + 1)) 0 "ping") <$> seq 0 k.

(** The hook [k] periods after its only socket opened at [d]. *)
Definition ticking (d : Z) (k : nat) : Hook :=
  mkHook true (Some 0) None (Some 0) (d + 30000 * Z.of_nat k) [OPEN]
         [mkTimer Interval (d + 30000 * (Z.of_nat k + 1)) true]
         (pings_until d k).

(** What holds of the hook after any events: the current socket is one it
    created, and every frame it sent is a ping, on a socket it created, at
    a time that is not in the future. *)
Definition hook_ok (h : Hook) : Prop :=
  (∀ s, wsRef h = Some s → s < length (sockets h))
  ∧ Forall (λ f, f_type f = "ping" ∧ f_socket f < length (sockets h)
                 ∧ (f_time f ≤ clock h)%Z) (sent h).

(** * Properties of the message handler *)

Lemma eqb_tag_false (s t : string) : s ≠ t → String.eqb s t = false.
Proof. intros H. by apply String.eqb_neq. Qed.

(** A message whose tag is none of the seven falls through the [switch]. *)
Lemma handle_unknown me m st :
  (∀ k, m_type m ≠ tag k) → handleWebSocketMessage me m st = st.
Proof.
  intros Hk. unfold handleWebSocketMessage.
  assert (Hf : ∀ k, String.eqb (m_type m) (tag k) = false)
    by (intros k; apply eqb_tag_false, Hk).
  pose proof (Hf user_joined) as H1. pose proof (Hf user_left) as H2.
  pose proof (Hf block_created) as H3. pose proof (Hf block_deleted) as H4.
  pose proof (Hf host_transferred) as H5.
  pose proof (Hf join_permission_changed) as H6.
  pose proof (Hf session_destroyed) as H7.
  simpl in H1, H2, H3, H4, H5, H6, H7.
  by rewrite H1, H2, H3, H4, H5, H6, H7.
Qed.

Lemma handle_known k me m st :
  m_type m = tag k → handles k m st (handleWebSocketMessage me m st).
Proof.
  intros Ht. unfold handleWebSocketMessage. rewrite Ht.
  destruct k; simpl.
  - done.
  - by destruct (find_user _ _).
  - done.
  - done.
  - by destruct (String.eqb (m_new_host_id m) me).
  - done.
  - done.
Qed.

Lemma tag_not_pong k : tag k ≠ "pong".
Proof. by destruct k. Qed.

Lemma tag_inj k1 k2 : tag k1 = tag k2 → k1 = k2.
Proof. by destruct k1, k2. Qed.

(** ** Deleting a block *)

(** C4: processing [block_deleted] with block ID [b] removes from the
    client's block list exactly the blocks whose ID is [b]: the list
    becomes the old one filtered, a block is present afterwards if and only
    if it was present and has another ID, the remaining blocks keep their
    relative order, and the users and the session are unchanged. *)
Theorem block_deleted_removes_exactly (me : string) (m : Message) (st : State) :
  m_type m = "block_deleted" →
  let st' := handleWebSocketMessage me m st in
  blocks st' = filter (λ b, b_id b ≠ m_block_id m) (blocks st)
  ∧ (∀ b, b ∈ blocks st' ↔ b ∈ blocks st ∧ b_id b ≠ m_block_id m)
  ∧ blocks st' `sublist_of` blocks st
  ∧ users st' = users st
  ∧ session st' = session st.
Proof.
  intros Ht st'.
  destruct (handle_known block_deleted me m st Ht) as (Hb & Hu & Hs).
  fold st' in Hb, Hu, Hs. rewrite Hb.
  split_and!; try done.
  - intros b. rewrite list_elem_of_filter. tauto.
  - apply sublist_filter.
Qed.

Lemma block_deleted_removes_exactly_witness :
  let st' := handleWebSocketMessage "u-bob"
               (message_for "block_deleted" "u-bob" 2) sample_state in
  blocks st' = [note 1; note 3]
  ∧ users st' = users sample_state
  ∧ session st' = session sample_state.
Proof.
  pose proof (block_deleted_removes_exactly "u-bob"
                (message_for "block_deleted" "u-bob" 2) sample_state
                eq_refl) as (Hb & _ & _ & Hu & Hs).
  split_and!; [exact Hb | exact Hu | exact Hs].
Defined.

(** ** The dispatch *)

(** C5: a [pong] is dropped before the handler is called, whatever the
    handler; any other message is passed on; a message tagged with one of
    the seven event kinds has that kind's effect; a message with any other
    tag leaves the whole state, hence users, blocks and session,
    unchanged. *)
Theorem dispatch_is_closed :
  (∀ f m st, m_type m = "pong" → onmessage f m st = st)
  ∧ (∀ f m st, m_type m ≠ "pong" → onmessage f m st = f m st)
  ∧ (∀ k me m st,
       m_type m = tag k →
       onmessage (handleWebSocketMessage me) m st
         = handleWebSocketMessage me m st
       ∧ handles k m st (handleWebSocketMessage me m st))
  ∧ (∀ me m st,
       (∀ k, m_type m ≠ tag k) →
       handleWebSocketMessage me m st = st).
Proof.
  split_and!.
  - intros f m st Ht. unfold onmessage. by rewrite Ht.
  - intros f m st Ht. unfold onmessage.
    by rewrite (eqb_tag_false _ _ Ht).
  - intros k me m st Ht. split.
    + unfold onmessage. rewrite eqb_tag_false; [done|].
      rewrite Ht. apply tag_not_pong.
    + by apply handle_known.
  - intros me m st Hk. by apply handle_unknown.
Qed.

Lemma dispatch_is_closed_witness :
  onmessage (handleWebSocketMessage "u-bob")
    (message_for "pong" "u-bob" 0) sample_state = sample_state
  ∧ handleWebSocketMessage "u-bob"
      (message_for "typing" "u-bob" 0) sample_state = sample_state
  ∧ handles user_joined (message_for "user_joined" "u-carol" 0) sample_state
      (handleWebSocketMessage "u-bob"
         (message_for "user_joined" "u-carol" 0) sample_state).
Proof.
  destruct dispatch_is_closed as (Hpong & _ & Hkind & Hother).
  split_and!.
  - apply Hpong. reflexivity.
  - apply Hother. intros k. by destruct k.
  - apply (Hkind user_joined). reflexivity.
Defined.

(** ** The host flag *)

Lemma with_is_host_elem (h : string) (us : list User) (u : User) :
  u ∈ with_is_host h <$> us → (u_is_host u = true ↔ u_id u = h).
Proof.
  intros (y & -> & _)%list_elem_of_fmap. simpl. apply String.eqb_eq.
Qed.

Lemma hosts_none (h : string) (us : list User) :
  h ∉ u_id <$> us → hosts (with_is_host h <$> us) = [].
Proof.
  induction us as [|u us IH]; intros Hn; [done|].
  rewrite fmap_cons, not_elem_of_cons in Hn. destruct Hn as [Hne Hn].
  unfold hosts in *. rewrite fmap_cons, filter_cons_False.
  - by apply IH.
  - simpl. rewrite eqb_tag_false; [done | congruence].
Qed.

Lemma hosts_one (h : string) (us : list User) :
  NoDup (u_id <$> us) → h ∈ u_id <$> us →
  length (hosts (with_is_host h <$> us)) = 1.
Proof.
  induction us as [|u us IH]; intros Hnd Hin.
  - by apply elem_of_nil in Hin.
  - rewrite fmap_cons in Hnd, Hin. apply NoDup_cons in Hnd as [Hnotin Hnd].
    unfold hosts in *. rewrite fmap_cons.
    destruct (decide (u_id u = h)) as [Heq | Hne].
    + rewrite filter_cons_True by (simpl; by apply String.eqb_eq).
      subst h. fold (hosts (with_is_host (u_id u) <$> us)).
      by rewrite hosts_none.
    + rewrite filter_cons_False
        by (simpl; rewrite eqb_tag_false; [done | congruence]).
      apply IH; [done|]. apply elem_of_cons in Hin as [Heq | Hin]; [|done].
      congruence.
Qed.

Lemma hosts_filter_nonhost (P : User → Prop) `{∀ u, Decision (P u)}
    (us : list User) :
  (∀ u, u ∈ us → ¬ P u → u_is_host u = false) →
  hosts (filter P us) = hosts us.
Proof.
  intros Hnh. unfold hosts.
  induction us as [|u us IH]; [done|].
  assert (IH' : filter (λ u, u_is_host u = true) (filter P us)
                = filter (λ u, u_is_host u = true) us).
  { apply IH. intros v Hv. apply Hnh. by right. }
  destruct (decide (P u)) as [Hp | Hn].
  - rewrite (filter_cons_True P) by done.
    rewrite !(filter_cons (λ u, u_is_host u = true)), IH'. done.
  - rewrite (filter_cons_False P) by done.
    rewrite (filter_cons_False (λ u, u_is_host u = true)); [done|].
    rewrite (Hnh u); [done | left | done].
Qed.

Lemma kind_cases (m : Message) :
  (∃ k, m_type m = tag k) ∨ (∀ k, m_type m ≠ tag k).
Proof.
  destruct (decide (m_type m = tag user_joined)); [left; eauto|].
  destruct (decide (m_type m = tag user_left)); [left; eauto|].
  destruct (decide (m_type m = tag block_created)); [left; eauto|].
  destruct (decide (m_type m = tag block_deleted)); [left; eauto|].
  destruct (decide (m_type m = tag host_transferred)); [left; eauto|].
  destruct (decide (m_type m = tag join_permission_changed)); [left; eauto|].
  destruct (decide (m_type m = tag session_destroyed)); [left; eauto|].
  right. by intros [].
Qed.

(** C1, as amended: after the client processes [host_transferred] whose
    [new_host_id] names a current member, a user's [is_host] flag is set
    exactly when its ID is [new_host_id]; such a user exists; the IDs and
    names of the users are untouched; and when the user IDs are distinct,
    exactly one user has the flag.  Moreover a user list with exactly one
    host keeps exactly one host under every message, provided that a
    [user_left] does not name a host, a [user_joined] does not carry a
    host, and a [host_transferred] names a member of a list with distinct
    IDs. *)
Theorem host_transferred_sets_flags :
  (∀ (me : string) (m : Message) (st : State),
     m_type m = "host_transferred" →
     m_new_host_id m ∈ u_id <$> users st →
     let us' := users (handleWebSocketMessage me m st) in
     (∀ u, u ∈ us' → (u_is_host u = true ↔ u_id u = m_new_host_id m))
     ∧ (∃ u, u ∈ us' ∧ u_id u = m_new_host_id m ∧ u_is_host u = true)
     ∧ u_id <$> us' = u_id <$> users st
     ∧ u_name <$> us' = u_name <$> users st
     ∧ (NoDup (u_id <$> users st) → one_host us'))
  ∧ (∀ (me : string) (m : Message) (st : State),
       one_host (users st) →
       (m_type m = "user_left" →
          ∀ u, u ∈ users st → u_id u = m_user_id m → u_is_host u = false) →
       (m_type m = "user_joined" → u_is_host (m_user m) = false) →
       (m_type m = "host_transferred" →
          m_new_host_id m ∈ u_id <$> users st ∧ NoDup (u_id <$> users st)) →
       one_host (users (handleWebSocketMessage me m st))).
Proof.
  split.
  - intros me m st Ht Hin us'.
    destruct (handle_known host_transferred me m st Ht) as (Hu & _).
    fold us' in Hu. rewrite Hu. split_and!.
    + intros u. apply with_is_host_elem.
    + apply list_elem_of_fmap in Hin as (y & Hy & Hyin).
      exists (with_is_host (m_new_host_id m) y). split_and!.
      * apply list_elem_of_fmap. eauto.
      * done.
      * simpl. by apply String.eqb_eq.
    + rewrite <- list_fmap_compose. by apply list_fmap_ext.
    + rewrite <- list_fmap_compose. by apply list_fmap_ext.
    + intros Hnd. by apply hosts_one.
  - intros me m st Hone Hleft Hjoined Htransfer.
    destruct (kind_cases m) as [[k Hk] | Hother];
      [|by rewrite handle_unknown].
    pose proof (handle_known k me m st Hk) as Hh.
    destruct k; simpl in Hk, Hh.
    + destruct Hh as (-> & _). unfold one_host, hosts in *.
      rewrite filter_app, filter_cons_False, filter_nil, app_nil_r; [done|].
      by rewrite (Hjoined Hk).
    + destruct Hh as (-> & _). unfold one_host in *.
      rewrite hosts_filter_nonhost; [done|].
      intros u Hu Hid. apply (Hleft Hk u Hu).
      by destruct (decide (u_id u = m_user_id m)).
    + by destruct Hh as (_ & -> & _).
    + by destruct Hh as (_ & -> & _).
    + destruct Hh as (-> & _). destruct (Htransfer Hk) as [Hin Hnd].
      by apply hosts_one.
    + by destruct Hh as (_ & _ & -> & _).
    + by destruct Hh as (-> & _).
Qed.

Lemma host_transferred_sets_flags_witness :
  one_host (users (handleWebSocketMessage "u-alice"
                     (message_for "host_transferred" "u-bob" 0)
                     sample_state))
  ∧ one_host (users (handleWebSocketMessage "u-alice"
                       (message_for "user_left" "u-bob" 0) sample_state)).
Proof.
  destruct host_transferred_sets_flags as [Hset Hkeep]. split.
  - refine (proj2 (proj2 (proj2 (proj2
      (Hset "u-alice" (message_for "host_transferred" "u-bob" 0)
         sample_state eq_refl _)))) _); compute_done.
  - apply Hkeep.
    + compute_done.
    + intros _ u Hu Hid. simpl in Hu, Hid.
      apply elem_of_cons in Hu as [-> | Hu]; [discriminate Hid|].
      apply list_elem_of_singleton in Hu as ->. reflexivity.
    + discriminate.
    + discriminate.
Defined.

(** C1, as stated, fails on the client: when the host leaves, the
    [user_left] event removes it and nobody in the client's user list is
    host any more. *)
Lemma host_leaves_no_host :
  let st' := handleWebSocketMessage "u-bob"
               (message_for "user_left" "u-alice" 0) sample_state in
  one_host (users sample_state)
  ∧ users st' = [bob]
  ∧ hosts (users st') = []
  ∧ ¬ one_host (users st').
Proof. by vm_compute. Qed.

(** * Properties of the runtime configuration *)

Lemma try_config_None (net : Network) (url : string) :
  try_config net url = None ↔ candidate_fails net url.
Proof.
  unfold try_config, candidate_fails, fetch.
  destruct (net _) as [msg | r]; simpl; [done|].
  destruct (r_ok r); simpl; [|split; auto].
  destruct (regex_match _ _); split; try done.
  - by intros [? | ?].
  - by right.
Qed.

Lemma first_config_None (net : Network) (urls : list string) :
  first_config net urls = None ↔ ∀ url, url ∈ urls → candidate_fails net url.
Proof.
  induction urls as [|u urls IH]; simpl.
  - split; [intros _ url H; by apply elem_of_nil in H | done].
  - destruct (try_config net u) as [v|] eqn:Hu.
    + split; [done|]. intros H.
      assert (candidate_fails net u) as Hf by (apply H; left).
      apply try_config_None in Hf. congruence.
    + rewrite IH. split.
      * intros H url [-> | Hin]%elem_of_cons; [by apply try_config_None | auto].
      * intros H url Hin. apply H. by right.
Qed.

Lemma first_config_Some (net : Network) (urls : list string) (u : string) :
  first_config net urls = Some u →
  ∃ url r m1, url ∈ urls
    ∧ net (mkRequest url "GET" None) = Responded r
    ∧ r_ok r = true
    ∧ regex_match url_pattern (r_text r) = Some m1
    ∧ u = trim m1.
Proof.
  induction urls as [|c urls IH]; simpl; [done|].
  destruct (try_config net c) as [v|] eqn:Hc.
  - intros [= ->]. unfold try_config, fetch in Hc.
    destruct (net _) as [msg | r] eqn:Hn; simpl in Hc; [done|].
    destruct (r_ok r) eqn:Hok; [|done].
    destruct (regex_match _ _) as [m1|] eqn:Hm; [|done].
    injection Hc as <-. exists c, r, m1. split_and!; try done. left.
  - intros H. destruct (IH H) as (url & r & m1 & Hin & Hrest).
    exists url, r, m1. split; [by right | done].
Qed.

Lemma fallback_url_nonempty (env : option string) :
  fallback_url env ≠ EmptyString.
Proof.
  unfold fallback_url. destruct env as [u|]; [|done]. simpl.
  destruct (String.eqb u EmptyString) eqn:He; simpl; [done|].
  by apply String.eqb_neq in He.
Qed.

(** What [initConfig] and [getBackendUrl] do in general: [initConfig]
    always resolves and stores what it resolves with; when no candidate
    yields a URL the result is the fallback, which is not empty; when one
    does, the result is the trimmed capture of the first ok candidate with
    a match; [getBackendUrl] throws exactly when the stored URL is [null] or
    the empty string. *)
Lemma initConfig_resolves_with (env : option string) (net : Network)
    (cfg : Config) :
  let r := initConfig env net cfg in
  backendUrl r.2 = Some r.1
  ∧ ((∀ url, url ∈ configUrls env → candidate_fails net url) →
       r.1 = fallback_url env ∧ r.1 ≠ EmptyString)
  ∧ (∀ u, first_config net (configUrls env) = Some u → r.1 = u)
  ∧ (∀ c : Config,
       throws (getBackendUrl c)
       ↔ backendUrl c = None ∨ backendUrl c = Some EmptyString)
  ∧ (∀ (c : Config) u,
       backendUrl c = Some u → u ≠ EmptyString → getBackendUrl c = Return u).
Proof.
  split_and!.
  - done.
  - intros Hall. apply first_config_None in Hall.
    unfold initConfig. rewrite Hall. simpl.
    split; [done | apply fallback_url_nonempty].
  - intros u Hu. unfold initConfig. by rewrite Hu.
  - intros c. unfold getBackendUrl, throws.
    destruct (backendUrl c) as [u|]; simpl.
    + destruct (String.eqb u EmptyString) eqn:He; simpl.
      * apply String.eqb_eq in He as ->. split; eauto.
      * apply String.eqb_neq in He. split.
        -- by intros [? ?].
        -- intros [? | [= ?]]; done.
    + split; eauto.
  - intros c u Hu Hne. unfold getBackendUrl. rewrite Hu. simpl.
    by rewrite eqb_tag_false.
Qed.

(** C10 fails on the configuration file that the installer writes for an
    empty base URL: the pattern captures the blank before the quotes,
    [trim] empties it, [initConfig] resolves with the empty string and
    stores it, and [getBackendUrl] then throws although [initConfig] has
    set the URL. *)
Theorem initConfig_empty_url :
  let r := initConfig None (serves empty_url_yaml) (mkConfig None) in
  regex_match url_pattern empty_url_yaml = Some " "
  ∧ r.1 = EmptyString
  ∧ backendUrl r.2 = Some EmptyString
  ∧ getBackendUrl r.2
    = Throw (Error (JStr "Config not initialized. Call initConfig() first.")).
Proof. by vm_compute. Qed.

(** * Properties of the encryption helpers *)

Lemma xor_ascii_involutive (k a : ascii) : xor_ascii k (xor_ascii k a) = a.
Proof.
  destruct k as [k0 k1 k2 k3 k4 k5 k6 k7], a as [a0 a1 a2 a3 a4 a5 a6 a7].
  simpl. by rewrite <- !xorb_assoc, !xorb_nilpotent, !xorb_false_l.
Qed.

(** Arithmetic with division and remainder by constants. *)
Ltac div_lia := zify; Z.to_euclidean_division_equations; lia.

Ltac decide_tests :=
  repeat match goal with
  | |- context [(?a <? ?b)%N] =>
      first [ replace (a <? b)%N with true by (symmetry; apply N.ltb_lt; div_lia)
            | replace (a <? b)%N with false by (symmetry; apply N.ltb_ge; div_lia) ]
  | |- context [(?a <=? ?b)%N] =>
      first [ replace (a <=? b)%N with true by (symmetry; apply N.leb_le; div_lia)
            | replace (a <=? b)%N with false by (symmetry; apply N.leb_gt; div_lia) ]
  end.

(** Decoding the bytes of a code point that is not a surrogate gives its
    code units. *)
Lemma utf8_decode_point (cp : N) (rest : list ascii) :
  (cp < 0x110000)%N → is_lead cp = false → is_trail cp = false →
  utf8_decode (utf8_encode_point cp ++ rest)
  = app (code_units cp) <$> utf8_decode rest.
Proof.
  intros Hcp Hl Ht. unfold utf8_encode_point, utf8_bytes, code_units.
  unfold is_lead, is_trail in Hl, Ht.
  apply andb_false_iff in Hl, Ht.
  rewrite !N.leb_gt in Hl, Ht.
  destruct (N.ltb_spec cp 0x80) as [H1 | H1].
  { cbn [fmap list_fmap app utf8_decode].
    rewrite N_ascii_embedding by lia.
    decide_tests. done. }
  destruct (N.ltb_spec cp 0x800) as [H2 | H2].
  { cbn [fmap list_fmap app utf8_decode].
    rewrite !N_ascii_embedding by div_lia.
    unfold is_cont. decide_tests. cbn [andb].
    replace ((0xC0 + cp / 64 - 0xC0) * 64 + (0x80 + cp mod 64 - 0x80))%N
      with cp by div_lia.
    done. }
  destruct (N.ltb_spec cp 0x10000) as [H3 | H3].
  { cbn [fmap list_fmap app utf8_decode].
    rewrite !N_ascii_embedding by div_lia.
    replace ((0xE0 + cp / 4096 - 0xE0) * 4096
             + (0x80 + (cp / 64) mod 64 - 0x80) * 64
             + (0x80 + cp mod 64 - 0x80))%N with cp by div_lia.
    unfold is_cont, is_lead, is_trail. decide_tests.
    cbn [andb orb negb].
    destruct Hl as [Hl | Hl], Ht as [Ht | Ht]; try lia; decide_tests; done. }
  cbn [fmap list_fmap app utf8_decode].
  rewrite !N_ascii_embedding by div_lia.
  replace ((0xF0 + cp / 262144 - 0xF0) * 262144
           + (0x80 + (cp / 4096) mod 64 - 0x80) * 4096
           + (0x80 + (cp / 64) mod 64 - 0x80) * 64
           + (0x80 + cp mod 64 - 0x80))%N with cp by div_lia.
  unfold is_cont. decide_tests. cbn [andb].
  unfold code_units. decide_tests. reflexivity.
Qed.

Lemma code_units_pair (u v : N) :
  is_lead u = true → is_trail v = true →
  code_units (pair_code_point u v) = [u; v]
  ∧ (pair_code_point u v < 0x110000)%N
  ∧ is_lead (pair_code_point u v) = false
  ∧ is_trail (pair_code_point u v) = false.
Proof.
  unfold is_lead, is_trail, code_units, pair_code_point.
  rewrite !andb_true_iff, !N.leb_le. intros [? ?] [? ?].
  decide_tests. split_and!; [|lia|done|done].
  f_equal; [|f_equal]; div_lia.
Qed.

Lemma code_units_single (u : N) :
  (u < 0x10000)%N → code_units u = [u].
Proof. intros H. unfold code_units. by decide_tests. Qed.

Lemma utf8_encode_plain (u : N) (rest : JsString) :
  is_lead u = false → is_trail u = false →
  utf8_encode (u :: rest) = app (utf8_encode_point u) <$> utf8_encode rest
  ∧ lone_surrogate (u :: rest) = lone_surrogate rest.
Proof. intros Hl Ht. cbn [utf8_encode lone_surrogate]. by rewrite Hl, Ht. Qed.

Lemma utf8_encode_pair (u v : N) (rest : JsString) :
  is_lead u = true → is_trail v = true →
  utf8_encode (u :: v :: rest)
  = app (utf8_encode_point (pair_code_point u v)) <$> utf8_encode rest
  ∧ lone_surrogate (u :: v :: rest) = lone_surrogate rest.
Proof. intros Hl Ht. cbn [utf8_encode lone_surrogate]. by rewrite Hl, Ht. Qed.

Lemma utf8_encode_lone (u : N) (rest : JsString) :
  (is_lead u = true ∧ (∀ v rest', rest = v :: rest' → is_trail v = false))
  ∨ (is_lead u = false ∧ is_trail u = true) →
  utf8_encode (u :: rest) = None ∧ lone_surrogate (u :: rest) = true.
Proof.
  intros [[Hl Hr] | [Hl Ht]]; cbn [utf8_encode lone_surrogate]; rewrite Hl.
  - destruct rest as [|v rest']; [done|]. by rewrite (Hr v rest' eq_refl).
  - by rewrite Ht.
Qed.

Lemma fmap_None_iff {A B} (f : A → B) (o : option A) (P : Prop) :
  (o = None ↔ P) → (f <$> o = None ↔ P).
Proof.
  destruct o; simpl; intros [H1 H2]; [|by split; auto].
  split; [discriminate|]. intros p. by specialize (H2 p).
Qed.

(** The encoder fails exactly on the strings with a lone surrogate, and
    decoding what it gives returns the string. *)
Lemma utf8_encode_spec (s : JsString) :
  (utf8_encode s = None ↔ lone_surrogate s = true)
  ∧ (∀ bs, js_string s = true → utf8_encode s = Some bs →
       utf8_decode bs = Some s).
Proof.
  cut (((utf8_encode s = None ↔ lone_surrogate s = true)
        ∧ (∀ bs, js_string s = true → utf8_encode s = Some bs →
             utf8_decode bs = Some s))
       ∧ ∀ u,
          (utf8_encode (u :: s) = None ↔ lone_surrogate (u :: s) = true)
          ∧ (∀ bs, js_string (u :: s) = true →
               utf8_encode (u :: s) = Some bs →
               utf8_decode bs = Some (u :: s))); [tauto|].
  assert (Hplain : ∀ u rest,
    is_lead u = false → is_trail u = false →
    (utf8_encode rest = None ↔ lone_surrogate rest = true) →
    (∀ bs, js_string rest = true → utf8_encode rest = Some bs →
       utf8_decode bs = Some rest) →
    (utf8_encode (u :: rest) = None ↔ lone_surrogate (u :: rest) = true)
    ∧ (∀ bs, js_string (u :: rest) = true →
         utf8_encode (u :: rest) = Some bs →
         utf8_decode bs = Some (u :: rest))).
  { intros u rest Hl Ht Hn Hr.
    destruct (utf8_encode_plain u rest Hl Ht) as [-> ->].
    split; [by apply fmap_None_iff|].
    intros bs Hjs Hbs.
    change (js_string (u :: rest))
      with ((u <? 0x10000)%N && js_string rest) in Hjs.
    apply andb_true_iff in Hjs as [Hu Hjs]. apply N.ltb_lt in Hu.
    revert Hbs. destruct (utf8_encode rest) as [bs'|] eqn:He; [|done].
    intros [= <-].
    rewrite utf8_decode_point by (done || lia).
    rewrite (Hr bs' Hjs eq_refl). simpl.
    by rewrite code_units_single. }
  induction s as [|v s [[IHn IHr] IHu]].
  - assert (Hnil : (utf8_encode [] = None ↔ lone_surrogate [] = true)
                   ∧ (∀ bs, js_string [] = true → utf8_encode [] = Some bs →
                        utf8_decode bs = Some [])).
    { split; [done | by intros bs _ [= <-]]. }
    split; [exact Hnil|]. intros u.
    destruct (is_lead u) eqn:Hl.
    { destruct (utf8_encode_lone u []) as [-> ->]; [left; by split|].
      by split. }
    destruct (is_trail u) eqn:Ht.
    { destruct (utf8_encode_lone u []) as [-> ->]; [right; by split|].
      by split. }
    apply Hplain; [done | done | apply Hnil..].
  - split; [exact (IHu v)|].
    intros u.
    destruct (is_lead u) eqn:Hl.
    + destruct (is_trail v) eqn:Ht.
      * destruct (code_units_pair u v Hl Ht) as (Hcu & Hlt & Hnl & Hnt).
        destruct (utf8_encode_pair u v s Hl Ht) as [-> ->].
        split; [by apply fmap_None_iff|].
        intros bs Hjs Hbs.
        change (js_string (u :: v :: s))
          with ((u <? 0x10000)%N && ((v <? 0x10000)%N && js_string s)) in Hjs.
        apply andb_true_iff in Hjs as [_ Hjs].
        apply andb_true_iff in Hjs as [_ Hjs].
        destruct (utf8_encode s) as [bs'|] eqn:He; [|done].
        cbn [fmap option_fmap option_map] in Hbs. injection Hbs as <-.
        rewrite utf8_decode_point by done.
        rewrite (IHr bs' Hjs eq_refl). simpl. by rewrite Hcu.
      * destruct (utf8_encode_lone u (v :: s)) as [-> ->]; [|by split].
        left. split; [done|]. by intros ? ? [= <- <-].
    + destruct (is_trail u) eqn:Htu.
      { destruct (utf8_encode_lone u (v :: s)) as [-> ->];
          [right; by split | by split]. }
      destruct (IHu v) as [IHvn IHvr]. by apply Hplain.
Qed.

Lemma bytes_of_string_of_bytes (bs : list ascii) :
  bytes_of_string (string_of_bytes bs) = bs.
Proof. induction bs as [|b bs IH]; simpl; congruence. Qed.

Lemma Toy_correct : CryptoJS_correct Toy.
Proof.
  constructor.
  - intros password salt keySize iterations _ _. simpl.
    destruct (utf8_encode_spec password) as [Hp _].
    destruct (utf8_encode_spec salt) as [Hs _].
    destruct (utf8_encode password) as [p|]; simpl.
    + destruct (utf8_encode salt) as [b|]; simpl.
      * split; [done|]. intros [H | H]; [by apply Hp in H | by apply Hs in H].
      * split; [intros _; right; by apply Hs | done].
    + split; [intros _; left; by apply Hp | done].
  - intros s _. apply (utf8_encode_spec s).
  - intros s words Hjs Hp. by apply (utf8_encode_spec s).
  - intros message pass rnd. simpl.
    rewrite bytes_of_string_of_bytes, <- list_fmap_compose.
    set (k := xor_ascii rnd (key_byte pass)).
    induction message as [|b bs IH]; [done|].
    rewrite fmap_cons, IH. simpl. by rewrite xor_ascii_involutive.
Qed.

Lemma well_formed_spec (s : JsString) :
  well_formed s = true ↔ js_string s = true ∧ lone_surrogate s = false.
Proof.
  unfold well_formed. rewrite andb_true_iff, negb_true_iff. tauto.
Qed.

(** With a passphrase and a salt without unpaired surrogate the key
    derivation returns, and with one it throws. *)
Lemma PBKDF2_string_spec (L : CryptoJS) (HL : CryptoJS_correct L)
    (c : EncryptionConfig) (keySize iterations : nat) :
  (config_ok c = true →
   ∃ key, PBKDF2 (passphrase c) (salt c) keySize iterations = Some key)
  ∧ (js_string (passphrase c) = true → js_string (salt c) = true →
     lone_surrogate (passphrase c) = true ∨ lone_surrogate (salt c) = true →
     PBKDF2_string (passphrase c) (salt c) keySize iterations
     = Throw URIError).
Proof.
  split.
  - unfold config_ok. rewrite andb_true_iff, !well_formed_spec.
    intros [[Hp Hpl] [Hs Hsl]].
    destruct (PBKDF2 _ _ keySize iterations) as [key|] eqn:Hk; [eauto|].
    apply PBKDF2_fails in Hk; [|done..]. destruct Hk; congruence.
  - intros Hp Hs Hl. unfold PBKDF2_string.
    by rewrite (proj2 (PBKDF2_fails _ _ keySize iterations Hp Hs) Hl).
Qed.

(** C8, as amended: with the configuration set to a passphrase and a salt
    that are strings without unpaired surrogate, [encrypt] returns for
    every string without an unpaired surrogate, whatever salt the library
    draws, and [decrypt] gives the string back; on a string with an
    unpaired surrogate [encrypt] throws the library's [URIError], and so
    do [encrypt] and [decrypt] on every input when the passphrase or the
    salt has one; [encrypt] throws [Encryption not initialized] exactly
    when the configuration is not set; [decrypt] throws [Encryption not
    initialized] exactly when the configuration is not set, and once the
    key is derived it throws exactly when the decrypted bytes are not
    UTF-8. *)
Theorem decrypt_encrypt_roundtrip (L : CryptoJS) (HL : CryptoJS_correct L) :
  (∀ (c : EncryptionConfig) (rnd : Salt) (s : JsString),
     config_ok c = true → well_formed s = true →
     ∃ ct, encrypt (mkEncryption (Some c)) rnd s = Return ct
           ∧ decrypt (mkEncryption (Some c)) ct = Return s)
  ∧ (∀ (c : EncryptionConfig) (rnd : Salt) (s : JsString),
       config_ok c = true → js_string s = true →
       (throws (encrypt (mkEncryption (Some c)) rnd s)
        ↔ lone_surrogate s = true)
       ∧ (lone_surrogate s = true →
          encrypt (mkEncryption (Some c)) rnd s = Throw URIError))
  ∧ (∀ c : EncryptionConfig,
       js_string (passphrase c) = true → js_string (salt c) = true →
       lone_surrogate (passphrase c) = true
       ∨ lone_surrogate (salt c) = true →
       (∀ rnd s, encrypt (mkEncryption (Some c)) rnd s = Throw URIError)
       ∧ (∀ ct, decrypt (mkEncryption (Some c)) ct = Throw URIError))
  ∧ (∀ (enc : Encryption) (rnd : Salt) (s : JsString),
       encrypt enc rnd s = Throw not_initialized
       ↔ encryptionConfig enc = None)
  ∧ (∀ (enc : Encryption) (ct : string),
       decrypt enc ct = Throw not_initialized ↔ encryptionConfig enc = None)
  ∧ (∀ (c : EncryptionConfig) (ct : string) (key : WordArray),
       PBKDF2 (passphrase c) (salt c) (256 / 32) 1000 = Some key →
       (throws (decrypt (mkEncryption (Some c)) ct)
        ↔ toString_Utf8 (AES_decrypt ct (toString_Hex key)) = None)).
Proof.
  split_and!.
  - intros c rnd s Hc [Hjs Hl]%well_formed_spec.
    destruct (proj1 (PBKDF2_string_spec L HL c (256 / 32) 1000) Hc)
      as [key Hk]. simpl in Hk.
    destruct (Utf8_parse s) as [words|] eqn:Hp;
      [|apply (Utf8_parse_fails s Hjs) in Hp; congruence].
    exists (CipherParams_toString (AES_encrypt words (toString_Hex key) rnd)).
    split.
    + unfold encrypt, PBKDF2_string, AES_encrypt_string. simpl.
      rewrite Hk. simpl. by rewrite Hp.
    + unfold decrypt, PBKDF2_string. simpl. rewrite Hk. simpl.
      by rewrite AES_roundtrip, (Utf8_roundtrip s words Hjs Hp).
  - intros c rnd s Hc Hjs.
    destruct (proj1 (PBKDF2_string_spec L HL c (256 / 32) 1000) Hc)
      as [key Hk]. simpl in Hk.
    unfold encrypt, PBKDF2_string, AES_encrypt_string, throws. simpl.
    rewrite Hk. simpl.
    destruct (Utf8_parse s) as [w|] eqn:Hp; simpl.
    + split; [|intros Hl; apply (Utf8_parse_fails s Hjs) in Hl; congruence].
      split; [by intros [? ?]|].
      intros Hl. apply (Utf8_parse_fails s Hjs) in Hl. congruence.
    + apply (Utf8_parse_fails s Hjs) in Hp. split; [|done].
      split; eauto.
  - intros c Hp Hs Hl.
    pose proof (proj2 (PBKDF2_string_spec L HL c (256 / 32) 1000) Hp Hs Hl)
      as Hk. simpl in Hk.
    split; intros; unfold encrypt, decrypt; simpl; by rewrite Hk.
  - intros enc rnd s. unfold encrypt, PBKDF2_string, AES_encrypt_string.
    destruct (encryptionConfig enc); [|done]. simpl.
    destruct (PBKDF2 _ _ _ _); [|done]. simpl.
    by destruct (Utf8_parse s).
  - intros enc ct. unfold decrypt, PBKDF2_string.
    destruct (encryptionConfig enc); [|done]. simpl.
    destruct (PBKDF2 _ _ _ _); [|done]. simpl.
    by destruct (toString_Utf8 _).
  - intros c ct key Hk. simpl in Hk.
    unfold decrypt, PBKDF2_string, throws. simpl.
    rewrite Hk. simpl.
    destruct (toString_Utf8 _); split; try done; eauto.
    by intros [? ?].
Qed.

Lemma decrypt_encrypt_roundtrip_witness :
  ∃ ct, @encrypt Toy toy_config "A"%char paired_text = Return ct
        ∧ @decrypt Toy toy_config ct = Return paired_text.
Proof.
  exact (proj1 (decrypt_encrypt_roundtrip Toy Toy_correct)
           toy_key "A"%char paired_text eq_refl eq_refl).
Defined.

(** C8, as stated, fails with the configuration set: [encrypt] throws on
    a string that ends in a lead surrogate, so that not every string makes
    the round trip; [encrypt] and [decrypt] throw on every input when the
    passphrase ends in a lead surrogate; and [decrypt] throws on a
    ciphertext whose bytes do not decrypt to UTF-8.  Neither throws only
    when encryption has not been initialized. *)
Lemma encrypt_decrypt_throw_when_initialized :
  CryptoJS_correct Toy
  ∧ encryptionConfig toy_config ≠ None
  ∧ config_ok toy_key = true
  ∧ js_string unpaired_text = true
  ∧ @encrypt Toy toy_config "A"%char unpaired_text = Throw URIError
  ∧ @decrypt Toy toy_config stray_ciphertext = Throw malformed_utf8
  ∧ @encrypt Toy (mkEncryption (Some unpaired_key)) "A"%char clip_me
    = Throw URIError
  ∧ ¬ (∀ (L : CryptoJS) (HL : CryptoJS_correct L) c rnd s,
         config_ok c = true → js_string s = true →
         ∃ ct, @encrypt L (mkEncryption (Some c)) rnd s = Return ct
               ∧ @decrypt L (mkEncryption (Some c)) ct = Return s)
  ∧ ¬ (∀ (L : CryptoJS) (HL : CryptoJS_correct L) enc rnd s,
         js_string s = true →
         (throws (@encrypt L enc rnd s) ↔ encryptionConfig enc = None))
  ∧ ¬ (∀ (L : CryptoJS) (HL : CryptoJS_correct L) enc ct,
         throws (@decrypt L enc ct) ↔ encryptionConfig enc = None).
Proof.
  split_and!.
  - apply Toy_correct.
  - done.
  - reflexivity.
  - reflexivity.
  - by vm_compute.
  - by vm_compute.
  - by vm_compute.
  - intros H.
    destruct (H Toy Toy_correct toy_key "A"%char unpaired_text
                eq_refl eq_refl) as (ct & He & _).
    vm_compute in He. discriminate He.
  - intros H.
    assert (throws (@encrypt Toy toy_config "A"%char unpaired_text)) as Ht
      by (eexists; by vm_compute).
    by apply (H Toy Toy_correct toy_config "A"%char unpaired_text eq_refl)
      in Ht.
  - intros H.
    assert (throws (@decrypt Toy toy_config stray_ciphertext)) as Ht
      by (eexists; by vm_compute).
    by apply (H Toy Toy_correct) in Ht.
Qed.

(** * Properties of the API client *)

(** C9: when the fetch of the download URL succeeds, [downloadBlock]
    resolves: with the decrypted text if [decrypt] returns, and with the raw
    text of the response if [decrypt] throws, whatever it throws. *)
Theorem downloadBlock_survives_decrypt (L : CryptoJS) (cfg : Config)
    (enc : Encryption) (net : Network) (sessionId : string) (blockId : N)
    (url : string) (response : Response) :
  getDownloadUrl cfg sessionId blockId = Return url →
  net (mkRequest url "GET" None) = Responded response →
  (∀ text, decrypt enc (r_text response) = Return text →
     downloadBlock cfg enc net sessionId blockId = Return text)
  ∧ (throws (decrypt enc (r_text response)) →
     downloadBlock cfg enc net sessionId blockId
       = Return (of_string (r_text response)))
  ∧ (∃ s, downloadBlock cfg enc net sessionId blockId = Return s).
Proof.
  intros Hurl Hnet. unfold downloadBlock. rewrite Hurl. simpl.
  unfold fetch. rewrite Hnet. simpl.
  destruct (decrypt enc (r_text response)) as [t | e]; simpl.
  - split_and!; [by intros ? [= ->] | by intros [? ?] | eauto].
  - split_and!; [done | done | eauto].
Qed.

Lemma downloadBlock_survives_decrypt_witness :
  @downloadBlock Toy (mkConfig (Some "http://localhost:8123")) toy_config
    (serves stray_ciphertext) "k3x9qa" 7
  = Return (of_string stray_ciphertext).
Proof.
  refine (proj1 (proj2 (downloadBlock_survives_decrypt Toy
    (mkConfig (Some "http://localhost:8123")) toy_config
    (serves stray_ciphertext) "k3x9qa" 7
    "http://localhost:8123/api/v1/block/download/k3x9qa/7"
    (mkResponse true stray_ciphertext None) _ _)) _).
  - by vm_compute.
  - reflexivity.
  - eexists. by vm_compute.
Defined.

Lemma join_unknown (sid u name : string) (now : Z) (reg : Core.Registry) :
  reg !! sid = None → Core.join sid u name now reg = Core.Err Core.NotFound.
Proof. intros H. unfold Core.join. by rewrite H. Qed.

Lemma join_disabled (sid u name : string) (now : Z) (reg : Core.Registry)
    (s : Core.Session) :
  reg !! sid = Some s → Core.allow_join s = false →
  Core.join sid u name now reg = Core.Err Core.JoinDisabled.
Proof. intros H Ha. unfold Core.join. by rewrite H, Ha. Qed.

Lemma join_allowed (sid u name : string) (now : Z) (reg : Core.Registry)
    (s : Core.Session) :
  reg !! sid = Some s → Core.allow_join s = true →
  ∃ reg', Core.join sid u name now reg = Core.Ok ((u, false), reg')
          ∧ (Core.members <$> reg' !! sid)
            = Some (Core.members s ++ [Core.mkMember u name false now])
          ∧ (Core.last_activity <$> reg' !! sid) = Some now.
Proof.
  intros H Ha. unfold Core.join. rewrite H, Ha. eexists. split; [done|].
  by rewrite lookup_insert_eq.
Qed.

(** C2, as amended.  The server's [join] fails with [NotFound] for an
    unknown ID and with [JoinDisabled] when [allow_join] is false, and
    otherwise returns [isHost = false].  The client's [joinSession], once
    the backend URL is configured: rejects when the request gets no
    response; for a response that is not ok it always rejects, with the
    server's [detail] as message when the body is a JSON object whose
    [detail] is truthy and with [Failed to join session] when the object has
    no truthy [detail]; for an ok response it resolves with the JSON body
    unchanged, and rejects if the body is not JSON. *)
Theorem joinSession_outcomes :
  (∀ sid u name now (reg : Core.Registry),
     reg !! sid = None →
     Core.join sid u name now reg = Core.Err Core.NotFound)
  ∧ (∀ sid u name now (reg : Core.Registry) s,
       reg !! sid = Some s → Core.allow_join s = false →
       Core.join sid u name now reg = Core.Err Core.JoinDisabled)
  ∧ (∀ sid u name now (reg : Core.Registry) s,
       reg !! sid = Some s → Core.allow_join s = true →
       ∃ reg', Core.join sid u name now reg = Core.Ok ((u, false), reg'))
  ∧ (∀ cfg net sessionId userName api,
       getApiBase cfg = Return api →
       match net (join_request api sessionId userName) with
       | NetworkError msg =>
           joinSession cfg net sessionId userName = Throw (TypeError msg)
       | Responded r =>
           if r_ok r then
             joinSession cfg net sessionId userName
             = match r_json r with
               | Some data => Return data
               | None => Throw SyntaxError
               end
           else
             throws (joinSession cfg net sessionId userName)
             ∧ (∀ fields,
                  r_json r = Some (JObj fields) →
                  joinSession cfg net sessionId userName
                  = Throw (Error (js_or (assoc "detail" fields)
                                        (JStr "Failed to join session"))))
             ∧ (∀ fields d,
                  r_json r = Some (JObj fields) →
                  assoc "detail" fields = JStr d → d ≠ EmptyString →
                  joinSession cfg net sessionId userName
                  = Throw (Error (JStr d)))
       end).
Proof.
  split_and!.
  - apply join_unknown.
  - apply join_disabled.
  - intros sid u name now reg s H Ha.
    destruct (join_allowed sid u name now reg s H Ha) as (reg' & Hj & _).
    eauto.
  - intros cfg net sid name api Hapi.
    unfold joinSession. rewrite Hapi. simpl. unfold fetch, join_request.
    destruct (net _) as [msg | r]; simpl; [done|].
    destruct (r_ok r); simpl.
    + unfold json. by destruct (r_json r).
    + unfold json, throws. destruct (r_json r) as [v|]; simpl.
      * split_and!.
        -- destruct v; simpl; eauto.
        -- by intros fields [= ->].
        -- intros fields d [= ->] Hd Hne. simpl. rewrite Hd.
           unfold js_or. simpl. by rewrite eqb_tag_false.
      * split_and!; [eauto | done | done].
Qed.

Lemma joinSession_outcomes_witness :
  Core.join "k3x9qa" "u-bob" "Bob" 10 ∅ = Core.Err Core.NotFound
  ∧ joinSession local_config
      (answers false (JObj [("detail", JStr "Session not found")]))
      "k3x9qa" (JStr "Bob")
    = Throw (Error (JStr "Session not found"))
  ∧ joinSession local_config
      (answers true (JObj [("user_id", JStr "u-bob"); ("is_host", JBool false)]))
      "k3x9qa" (JStr "Bob")
    = Return (JObj [("user_id", JStr "u-bob"); ("is_host", JBool false)]).
Proof.
  destruct joinSession_outcomes as (Hnf & _ & _ & Hclient).
  split_and!.
  - apply Hnf. reflexivity.
  - pose proof (Hclient local_config
      (answers false (JObj [("detail", JStr "Session not found")]))
      "k3x9qa" (JStr "Bob") "http://localhost:8123/api/v1" eq_refl) as H.
    simpl in H. destruct H as (_ & _ & H).
    apply (H [("detail", JStr "Session not found")] "Session not found");
      [reflexivity | reflexivity | discriminate].
  - exact (Hclient local_config
      (answers true (JObj [("user_id", JStr "u-bob"); ("is_host", JBool false)]))
      "k3x9qa" (JStr "Bob") "http://localhost:8123/api/v1" eq_refl).
Defined.

(** C2, as stated, fails: [joinSession] also rejects when there is no
    response that is not ok, because the request got no response at all, or
    because the body of an ok response is not JSON. *)
Lemma joinSession_rejects_without_error_response :
  joinSession local_config offline "k3x9qa" JNull
    = Throw (TypeError "Failed to fetch")
  ∧ (∀ q r, offline q ≠ Responded r)
  ∧ joinSession local_config (serves "<html></html>") "k3x9qa" JNull
    = Throw SyntaxError
  ∧ (∀ q r, serves "<html></html>" q = Responded r → r_ok r = true)
  ∧ ¬ (∀ cfg net sessionId userName,
         throws (joinSession cfg net sessionId userName)
         ↔ ∃ q r, net q = Responded r ∧ r_ok r = false).
Proof.
  split_and!.
  - reflexivity.
  - done.
  - reflexivity.
  - by intros q r [= <-].
  - intros H.
    destruct (proj1 (H local_config offline "k3x9qa" JNull))
      as (q & r & Hq & _); [by eexists | done].
Qed.

(** * Properties of the session core *)

(** ** The block ledger *)

Lemma append_ok (max : N) (now : Z) (b : Core.NewBlock) (l l' : Core.Ledger)
    (id : N) :
  ledger_ok l → Core.append max now b l = Core.Ok (id, l') →
  id = Core.next_id l
  ∧ Core.next_id l' = N.succ (Core.next_id l)
  ∧ ledger_ok l'.
Proof.
  intros Hok Ha.
  assert (id = Core.next_id l ∧
          l' = Core.mkLedger (N.succ (Core.next_id l))
                 (Core.entries l ++ [Core.mkEntry (Core.next_id l) b now]))
    as [-> ->].
  { unfold Core.append in Ha. destruct (Core.nb_kind b).
    - by injection Ha as <- <-.
    - destruct (_ <? _)%N; [done|]. by injection Ha as <- <-. }
  split_and!; [done | done |].
  intros e [He | ->%list_elem_of_singleton]%elem_of_app; simpl.
  - specialize (Hok e He). lia.
  - lia.
Qed.

Lemma remove_ok (id : N) (l l' : Core.Ledger) :
  ledger_ok l → Core.remove id l = Core.Ok l' →
  Core.next_id l' = Core.next_id l
  ∧ ledger_ok l'
  ∧ (∀ e, e ∈ Core.entries l' → Core.block_id e ≠ id).
Proof.
  intros Hok Hr. unfold Core.remove in Hr.
  destruct (Core.has_block id l); [|done]. injection Hr as <-.
  split_and!; [done | |].
  - intros e [_ He]%list_elem_of_filter. by apply Hok.
  - by intros e [Hne _]%list_elem_of_filter.
Qed.

Lemma run_ledger_ids (max : N) (ops : list Core.LedgerOp) (l : Core.Ledger) :
  ledger_ok l →
  StronglySorted N.lt (Core.run_ledger max ops l).1
  ∧ Forall (λ i, Core.next_id l ≤ i)%N (Core.run_ledger max ops l).1
  ∧ ledger_ok (Core.run_ledger max ops l).2
  ∧ (Core.next_id l ≤ Core.next_id (Core.run_ledger max ops l).2)%N.
Proof.
  revert l. induction ops as [|op ops IH]; intros l Hok.
  - simpl. split_and!; [constructor | constructor | done | lia].
  - destruct op as [now b | id]; simpl.
    + destruct (Core.append max now b l) as [[i l1] | e] eqn:Ha.
      * destruct (append_ok _ _ _ _ _ _ Hok Ha) as (-> & Hn & Hok1).
        destruct (IH l1 Hok1) as (Hs & Hge & Hok2 & Hle).
        destruct (Core.run_ledger max ops l1) as [ids l2]. simpl in *.
        split_and!.
        -- constructor; [done|].
           eapply Forall_impl; [exact Hge|]. simpl. intros; lia.
        -- constructor; [lia|].
           eapply Forall_impl; [exact Hge|]. simpl. intros; lia.
        -- done.
        -- lia.
      * by apply IH.
    + destruct (Core.remove id l) as [l1 | e] eqn:Hr.
      * destruct (remove_ok _ _ _ Hok Hr) as (Hn & Hok1 & _).
        destruct (IH l1 Hok1) as (Hs & Hge & Hok2 & Hle).
        rewrite Hn in Hge, Hle. done.
      * by apply IH.
Qed.

(** C3: in a ledger whose blocks all bear IDs below the next ID to assign
    (as the empty ledger of a new session does), the IDs that [append]
    assigns over any run of appends and removals are strictly increasing,
    hence pairwise distinct, and none of them is an ID that was assigned
    before the run, whether its block is still in the ledger or has been
    deleted; the ledger keeps the property, so this holds over the whole
    life of the session. *)
Theorem block_ids_strictly_increase (max : N) (ops : list Core.LedgerOp)
    (l : Core.Ledger) :
  ledger_ok l →
  let ids := (Core.run_ledger max ops l).1 in
  let l' := (Core.run_ledger max ops l).2 in
  StronglySorted N.lt ids
  ∧ NoDup ids
  ∧ (∀ old, (old < Core.next_id l)%N → old ∉ ids)
  ∧ (∀ e i, e ∈ Core.entries l → i ∈ ids → (Core.block_id e < i)%N)
  ∧ ledger_ok l'.
Proof.
  intros Hok ids l'.
  destruct (run_ledger_ids max ops l Hok) as (Hs & Hge & Hok' & Hle).
  fold ids in Hs, Hge. fold l' in Hok'.
  rewrite Forall_forall in Hge.
  split_and!; try done.
  - clear -Hs. induction Hs as [|i ids Hs IH Hall]; constructor; [|done].
    intros Hin. rewrite Forall_forall in Hall.
    specialize (Hall i Hin). lia.
  - intros old Hold Hin. specialize (Hge old Hin). lia.
  - intros e i He Hi. specialize (Hge i Hi). specialize (Hok e He). lia.
Qed.

Lemma block_ids_strictly_increase_witness :
  (Core.run_ledger 100
     [Core.Append 1 (text_block "a"); Core.Append 2 (text_block "b");
      Core.Remove 1; Core.Append 3 (text_block "c")]
     Core.empty_ledger).1 = [0; 1; 2]%N
  ∧ StronglySorted N.lt
      (Core.run_ledger 100
         [Core.Append 1 (text_block "a"); Core.Append 2 (text_block "b");
          Core.Remove 1; Core.Append 3 (text_block "c")]
         Core.empty_ledger).1.
Proof.
  split; [reflexivity|].
  refine (proj1 (block_ids_strictly_increase 100 _ Core.empty_ledger _)).
  intros e He. by apply elem_of_nil in He.
Defined.

(** ** Membership *)

(** When the last member leaves, the session stays registered, for the
    sweeper, with no user and so with no host. *)
Example last_member_leaves_empty_session :
  Core.members
    <$> Core.removeUser "k3x9qa" "u-alice" 50 {["k3x9qa" := idle_session 0]}
        !! "k3x9qa"
  = Some [].
Proof. by vm_compute. Qed.

(** ** The eviction sweeper *)











(** * Properties of the connection hook *)

(** The interval callback sends at most one frame, a ping, and only on the
    current socket and only when that socket is open. *)
Lemma ping_callback_sends (h : Hook) :
  (∃ s, wsRef h = Some s ∧ sockets h !! s = Some OPEN
        ∧ sent (ping_callback h) = sent h ++ [mkFrame (clock h) s "ping"])
  ∨ ((∀ s, wsRef h = Some s → sockets h !! s ≠ Some OPEN)
     ∧ ping_callback h = h).
Proof.
  unfold ping_callback. destruct (wsRef h) as [s|] eqn:Hw.
  - destruct (decide (sockets h !! s = Some OPEN)) as [Ho | Hn].
    + left. exists s. by rewrite ?Hw.
    + right. split; [by intros ? [= <-] | done].
  - right. split; [done | done].
Qed.

(** [onclose] clears the interval that [pingIntervalRef] holds. *)
Lemma onclose_clears_current_interval (h : Hook) (id : nat) :
  pingIntervalRef h = Some id → id < length (timers h) →
  t_active <$> timers (onclose h) !! id = Some false.
Proof.
  intros Hp Hlt. unfold onclose. simpl. rewrite Hp. simpl.
  rewrite lookup_app_l by (by rewrite length_alter).
  rewrite list_lookup_alter_eq.
  destruct (timers h !! id) eqn:Ht; [done|].
  apply lookup_ge_None in Ht. lia.
Qed.

(** With one connection at a time the mechanism does what it is meant to:
    one ping per 30 seconds while the socket is open, and no interval left
    once it has closed. *)
Example single_connection_pings :
  ∃ h, run_events single_connection initial_hook = Some h
       ∧ pings_on 0 h = [30050; 60050]%Z
       ∧ live_intervals h = [].
Proof. eexists. by vm_compute. Qed.

(** C7 fails when the effect is run again while a socket is open: the
    superseded socket's [onclose] schedules a reconnect, the reconnect
    replaces a socket that is open, and the interval of the replaced socket
    is never cleared.  Two intervals are then live, the current socket
    (2) receives two pings 3020 ms apart, and socket 1, which has been open
    since 200 ms, never receives one. *)
Theorem rerun_leaks_ping_interval :
  ∃ h, run_events rerun_while_open initial_hook = Some h
       ∧ clock h = 33220%Z
       ∧ sockets h = [CLOSED; OPEN; OPEN]
       ∧ wsRef h = Some 2
       ∧ length (live_intervals h) = 2
       ∧ pings_on 2 h = [30200; 33220]%Z
       ∧ pings_on 1 h = [].
Proof. eexists. by vm_compute. Qed.

(** * Further properties of the message handler *)

Lemma filter_ids_all {A} (f : A → string) (x : string) (l : list A) :
  x ∉ f <$> l → filter (λ a, f a ≠ x) l = l.
Proof.
  induction l as [|a l IH]; intros Hx; [done|].
  rewrite fmap_cons, not_elem_of_cons in Hx. destruct Hx as [Hne Hx].
  rewrite filter_cons_True by congruence. by rewrite IH.
Qed.

Lemma filter_bids_all (x : N) (l : list Block) :
  x ∉ b_id <$> l → filter (λ b, b_id b ≠ x) l = l.
Proof.
  induction l as [|a l IH]; intros Hx; [done|].
  rewrite fmap_cons, not_elem_of_cons in Hx. destruct Hx as [Hne Hx].
  rewrite filter_cons_True by congruence. by rewrite IH.
Qed.

(** A user that joins and then leaves: when no user of the list already
    had the ID of the one that joins, [user_joined] followed by [user_left]
    for that ID gives back the user list, and blocks and session are as
    before. *)
Theorem user_joined_then_left (me : string) (m1 m2 : Message) (st : State) :
  m_type m1 = "user_joined" →
  m_type m2 = "user_left" →
  m_user_id m2 = u_id (m_user m1) →
  u_id (m_user m1) ∉ u_id <$> users st →
  let st' := handleWebSocketMessage me m2 (handleWebSocketMessage me m1 st) in
  users st' = users st ∧ blocks st' = blocks st ∧ session st' = session st.
Proof.
  intros H1 H2 Hid Hfresh st'.
  destruct (handle_known user_joined me m1 st H1) as (Hu1 & Hb1 & Hs1).
  destruct (handle_known user_left me m2 (handleWebSocketMessage me m1 st) H2)
    as (Hu2 & Hb2 & Hs2).
  fold st' in Hu2, Hb2, Hs2.
  rewrite Hu2, Hb2, Hs2, Hu1, Hb1, Hs1. split_and!; try done.
  rewrite filter_app, Hid, (filter_ids_all u_id) by done.
  rewrite filter_cons_False, filter_nil, app_nil_r; [done|]. by intros Hn.
Qed.

Lemma user_joined_then_left_witness :
  users (handleWebSocketMessage "u-bob" (message_for "user_left" "u-carol" 0)
           (handleWebSocketMessage "u-bob"
              (message_for "user_joined" "u-carol" 0) sample_state))
  = users sample_state.
Proof.
  refine (proj1 (user_joined_then_left "u-bob"
    (message_for "user_joined" "u-carol" 0)
    (message_for "user_left" "u-carol" 0) sample_state
    eq_refl eq_refl eq_refl _)).
  compute_done.
Defined.

(** A block that is created and then deleted: when no block of the list
    already had the new block's ID, [block_created] followed by
    [block_deleted] for that ID gives back the block list, and users and
    session are as before. *)
Theorem block_created_then_deleted (me : string) (m1 m2 : Message)
    (st : State) :
  m_type m1 = "block_created" →
  m_type m2 = "block_deleted" →
  m_block_id m2 = b_id (m_block m1) →
  b_id (m_block m1) ∉ b_id <$> blocks st →
  let st' := handleWebSocketMessage me m2 (handleWebSocketMessage me m1 st) in
  blocks st' = blocks st ∧ users st' = users st ∧ session st' = session st.
Proof.
  intros H1 H2 Hid Hfresh st'.
  destruct (handle_known block_created me m1 st H1) as (Hb1 & Hu1 & Hs1).
  destruct (handle_known block_deleted me m2 (handleWebSocketMessage me m1 st)
              H2) as (Hb2 & Hu2 & Hs2).
  fold st' in Hu2, Hb2, Hs2.
  rewrite Hu2, Hb2, Hs2, Hu1, Hb1, Hs1. split_and!; try done.
  rewrite filter_app, Hid, filter_bids_all by done.
  rewrite filter_cons_False, filter_nil, app_nil_r; [done|]. by intros Hn.
Qed.

Lemma block_created_then_deleted_witness :
  blocks (handleWebSocketMessage "u-bob" (message_for "block_deleted" "u-bob" 9)
            (handleWebSocketMessage "u-bob"
               (message_for "block_created" "u-bob" 9) sample_state))
  = blocks sample_state.
Proof.
  refine (proj1 (block_created_then_deleted "u-bob"
    (message_for "block_created" "u-bob" 9)
    (message_for "block_deleted" "u-bob" 9) sample_state
    eq_refl eq_refl eq_refl _)).
  compute_done.
Defined.

Lemma filter_twice {A} (P : A → Prop) `{∀ a, Decision (P a)} (l : list A) :
  filter P (filter P l) = filter P l.
Proof.
  induction l as [|a l IH]; [done|].
  destruct (decide (P a)) as [Hp | Hn].
  - rewrite (filter_cons_True P a l Hp), (filter_cons_True P) by done.
    by rewrite IH.
  - by rewrite (filter_cons_False P a l Hn).
Qed.

Lemma find_user_filtered (id : string) (us : list User) :
  find_user id (filter (λ u, u_id u ≠ id) us) = None.
Proof.
  induction us as [|u us IH]; [done|].
  destruct (decide (u_id u = id)) as [He | Hn].
  - by rewrite filter_cons_False by (intros Hc; by apply Hc).
  - rewrite filter_cons_True by done. unfold find_user in *. simpl.
    by rewrite (eqb_tag_false _ _ Hn).
Qed.

Lemma with_is_host_twice (h : string) (us : list User) :
  with_is_host h <$> (with_is_host h <$> us) = with_is_host h <$> us.
Proof. rewrite <- list_fmap_compose. by apply list_fmap_ext. Qed.

(** Redelivery: a message of any type other than [user_joined] and
    [block_created] that is processed a second time changes nothing, the
    state is the one after the first time. *)
Theorem redelivery_is_idempotent (me : string) (m : Message) (st : State) :
  m_type m ≠ "user_joined" →
  m_type m ≠ "block_created" →
  handleWebSocketMessage me m (handleWebSocketMessage me m st)
  = handleWebSocketMessage me m st.
Proof.
  intros Hj Hc. destruct (kind_cases m) as [[k Hk] | Hother];
    [|by rewrite !handle_unknown].
  destruct st as [se bs us no rl].
  destruct k; simpl in Hk; try done;
    unfold handleWebSocketMessage; rewrite Hk; simpl.
  - destruct (find_user (m_user_id m) us) eqn:Hf; simpl.
    + unfold showNotification, setUsers. simpl.
      by rewrite find_user_filtered, filter_twice.
    + unfold setUsers. simpl. by rewrite find_user_filtered, filter_twice.
  - unfold setBlocks. simpl. by rewrite filter_twice.
  - destruct (String.eqb (m_new_host_id m) me); simpl;
      unfold setSession, setUsers, showNotification; simpl;
      by rewrite with_is_host_twice.
  - done.
  - done.
Qed.

Lemma redelivery_is_idempotent_witness :
  handleWebSocketMessage "u-bob" (message_for "user_left" "u-alice" 0)
    (handleWebSocketMessage "u-bob" (message_for "user_left" "u-alice" 0)
       sample_state)
  = handleWebSocketMessage "u-bob" (message_for "user_left" "u-alice" 0)
      sample_state.
Proof.
  apply redelivery_is_idempotent; discriminate.
Defined.

Lemma NoDup_fmap_filter {A B} (f : A → B) (P : A → Prop)
    `{∀ a, Decision (P a)} (l : list A) :
  NoDup (f <$> l) → NoDup (f <$> filter P l).
Proof.
  intros Hnd. eapply sublist_NoDup; [exact Hnd|].
  apply fmap_sublist, sublist_filter.
Qed.

(** The IDs stay distinct: if the users have distinct IDs and the blocks
    have distinct IDs (they are the React keys of the rendered lists), they
    still have after any message, provided that a [user_joined] carries a
    user whose ID is not in the list and a [block_created] a block whose ID
    is not in the list. *)
Theorem ids_stay_distinct (me : string) (m : Message) (st : State) :
  NoDup (u_id <$> users st) →
  NoDup (b_id <$> blocks st) →
  (m_type m = "user_joined" → u_id (m_user m) ∉ u_id <$> users st) →
  (m_type m = "block_created" → b_id (m_block m) ∉ b_id <$> blocks st) →
  let st' := handleWebSocketMessage me m st in
  NoDup (u_id <$> users st') ∧ NoDup (b_id <$> blocks st').
Proof.
  intros Hu Hb Hj Hc st'.
  destruct (kind_cases m) as [[k Hk] | Hother];
    [|by unfold st'; rewrite handle_unknown].
  pose proof (handle_known k me m st Hk) as Hh. fold st' in Hh.
  destruct k; simpl in Hk, Hh.
  - destruct Hh as (-> & -> & _). split; [|done].
    rewrite fmap_app. apply NoDup_app. split_and!; [done | | apply NoDup_singleton].
    intros x Hx Hin. simpl in Hin. apply list_elem_of_singleton in Hin as ->.
    by apply (Hj Hk).
  - destruct Hh as (-> & -> & _). split; [|done]. by apply NoDup_fmap_filter.
  - destruct Hh as (-> & -> & _). split; [done|].
    rewrite fmap_app. apply NoDup_app. split_and!; [done | | apply NoDup_singleton].
    intros x Hx Hin. simpl in Hin. apply list_elem_of_singleton in Hin as ->.
    by apply (Hc Hk).
  - destruct Hh as (-> & -> & _). split; [done|]. by apply NoDup_fmap_filter.
  - destruct Hh as (-> & -> & _). split; [|done].
    rewrite <- list_fmap_compose.
    assert (He : (u_id ∘ with_is_host (m_new_host_id m)) <$> users st
                 = u_id <$> users st) by (by apply list_fmap_ext).
    by rewrite He.
  - by destruct Hh as (_ & _ & -> & ->).
  - by destruct Hh as (-> & -> & _).
Qed.

Lemma ids_stay_distinct_witness :
  NoDup (u_id <$> users (handleWebSocketMessage "u-bob"
                           (message_for "user_joined" "u-carol" 0)
                           sample_state)).
Proof.
  refine (proj1 (ids_stay_distinct "u-bob"
    (message_for "user_joined" "u-carol" 0) sample_state _ _ _ _)).
  - compute_done.
  - compute_done.
  - intros _. compute_done.
  - discriminate.
Defined.

(** * Properties of the menu *)

Lemma find_user_with_is_host (me h : string) (us : list User) :
  find_user me (with_is_host h <$> us) = with_is_host h <$> find_user me us.
Proof.
  unfold find_user. induction us as [|u us IH]; [done|].
  simpl. destruct (String.eqb (u_id u) me); [done | exact IH].
Qed.

Lemma find_user_member (me : string) (us : list User) :
  me ∈ u_id <$> us → ∃ u, find_user me us = Some u ∧ u_id u = me.
Proof.
  unfold find_user. induction us as [|u us IH]; intros Hin.
  - by apply elem_of_nil in Hin.
  - simpl. destruct (String.eqb (u_id u) me) eqn:He.
    + apply String.eqb_eq in He. eauto.
    + apply String.eqb_neq in He. rewrite fmap_cons in Hin.
      apply elem_of_cons in Hin as [Heq | Hin]; [congruence | by apply IH].
Qed.

(** After a host transfer the host controls go to the new host: for a
    client whose own user is in the list, the menu's [isHost] is true
    exactly when its user ID is the new host's, so the Make Host button is
    shown (beside every other user) on the new host's client only, and the
    notice [You are now the host] appears on that client only. *)
Theorem host_controls_follow_transfer (me : string) (m : Message)
    (st : State) :
  m_type m = "host_transferred" →
  me ∈ u_id <$> users st →
  let st' := handleWebSocketMessage me m st in
  let current := currentUser me (users st') in
  isHost current = String.eqb me (m_new_host_id m)
  ∧ (∀ u, shows_transfer_button me current u
          = String.eqb me (m_new_host_id m) && negb (String.eqb (u_id u) me))
  ∧ (m_new_host_id m = me → notification st' = Some "You are now the host")
  ∧ (m_new_host_id m ≠ me → notification st' = notification st).
Proof.
  intros Ht Hin st' current.
  assert (Hcur : isHost current = String.eqb me (m_new_host_id m)).
  { destruct (handle_known host_transferred me m st Ht) as (Hu & _).
    unfold current, currentUser. fold st' in Hu.
    rewrite Hu, find_user_with_is_host.
    destruct (find_user_member me (users st) Hin) as (u & -> & Hid).
    simpl. by rewrite Hid. }
  split_and!.
  - done.
  - intros u. unfold shows_transfer_button. by rewrite Hcur.
  - intros He. unfold st', handleWebSocketMessage. rewrite Ht. simpl.
    apply String.eqb_eq in He. by rewrite He.
  - intros Hne. unfold st', handleWebSocketMessage. rewrite Ht. simpl.
    by rewrite (eqb_tag_false _ _ Hne).
Qed.

Lemma host_controls_follow_transfer_witness :
  isHost (currentUser "u-bob"
            (users (handleWebSocketMessage "u-bob"
                      (message_for "host_transferred" "u-bob" 0)
                      sample_state)))
  = true.
Proof.
  refine (proj1 (host_controls_follow_transfer "u-bob"
    (message_for "host_transferred" "u-bob" 0) sample_state eq_refl _)).
  compute_done.
Defined.

(** * Properties of the pattern matcher and of [trim] *)

Lemma match_here_cons (a : Atom) (p : list Atom) :
  match_here (a :: p)
  = match a_quant a with
    | One => λ s cap,
        match s with
        | String c s' =>
            if a_class a c then match_here p s' (capture a c cap) else None
        | EmptyString => None
        end
    | Opt => λ s cap,
        match s with
        | String c s' =>
            if a_class a c then
              match match_here p s' (capture a c cap) with
              | Some r => Some r
              | None => match_here p s cap
              end
            else match_here p s cap
        | EmptyString => match_here p s cap
        end
    | Star => star_loop a (match_here p)
    | Plus => λ s cap,
        match s with
        | String c s' =>
            if a_class a c
            then star_loop a (match_here p) s' (capture a c cap)
            else None
        | EmptyString => None
        end
    end.
Proof. reflexivity. Qed.

Lemma append_assoc (a b c : string) : (a +:+ b) +:+ c = a +:+ b +:+ c.
Proof.
  induction a as [|x a IH]; [done|].
  change (String x ((a +:+ b) +:+ c) = String x (a +:+ b +:+ c)).
  by rewrite IH.
Qed.

Lemma append_empty_r (a : string) : a +:+ EmptyString = a.
Proof.
  induction a as [|x a IH]; [done|].
  change (String x (a +:+ EmptyString) = String x a). by rewrite IH.
Qed.

Lemma capture_adds (Q : ascii → bool) (a : Atom) (c : ascii)
    (cap add : string) :
  (a_captured a = true → Q c = true) →
  all_chars Q add →
  ∃ add', capture a c cap +:+ add = cap +:+ add'
          ∧ all_chars Q add'
          ∧ String.length add ≤ String.length add'
          ∧ (a_captured a = true → S (String.length add) = String.length add').
Proof.
  intros Hq Hadd. unfold capture. destruct (a_captured a).
  - exists (String c add). rewrite append_assoc.
    split; [reflexivity|]. split; [split; [by apply Hq | done]|].
    split; [simpl; lia | done].
  - exists add. split; [done|]. split; [done|]. split; [lia | done].
Qed.

Lemma star_loop_adds (Q : ascii → bool) (n : nat) (a : Atom)
    (k : string → string → option string) :
  (a_captured a = true → ∀ c, a_class a c = true → Q c = true) →
  adds Q n k → adds Q n (star_loop a k).
Proof.
  intros Hq Hk s. induction s as [|c s IH]; intros cap r Hr; simpl in Hr.
  - by apply (Hk _ _ _ Hr).
  - destruct (a_class a c) eqn:Hc; [|by apply (Hk _ _ _ Hr)].
    destruct (star_loop a k s (capture a c cap)) as [r'|] eqn:Hs;
      [|by apply (Hk _ _ _ Hr)].
    injection Hr as <-.
    destruct (IH _ _ Hs) as (add & -> & Hall & Hn).
    destruct (capture_adds Q a c cap add) as (add' & -> & Hall' & Hle & _);
      [auto | done |].
    exists add'. split_and!; [done | done | lia].
Qed.

Lemma match_here_adds (Q : ascii → bool) (p : list Atom) :
  (∀ a, a ∈ p → a_captured a = true → ∀ c, a_class a c = true → Q c = true) →
  adds Q (min_captured p) (match_here p).
Proof.
  induction p as [|a p IH]; intros Hq.
  - intros s cap r [= <-]. exists EmptyString.
    rewrite append_empty_r. simpl. split_and!; [done | done | lia].
  - assert (Hqa : a_captured a = true → ∀ c, a_class a c = true → Q c = true)
      by (apply Hq; left).
    assert (Hp : adds Q (min_captured p) (match_here p))
      by (apply IH; intros b Hb; apply Hq; by right).
    assert (Hstep : ∀ c s cap r,
              a_class a c = true →
              (match_here p s (capture a c cap) = Some r
               ∨ star_loop a (match_here p) s (capture a c cap) = Some r) →
              ∃ add, r = cap +:+ add ∧ all_chars Q add
                     ∧ (if a_captured a then 1 else 0) + min_captured p
                       ≤ String.length add).
    { intros c s cap r Hc Hr.
      assert (∃ add, r = capture a c cap +:+ add ∧ all_chars Q add
                     ∧ min_captured p ≤ String.length add)
        as (add & -> & Hall & Hn).
      { destruct Hr as [Hr | Hr]; [by apply (Hp _ _ _ Hr)|].
        by apply (star_loop_adds Q _ a (match_here p) Hqa Hp) in Hr. }
      destruct (capture_adds Q a c cap add) as (add' & -> & Hall' & Hle & Hcap);
        [auto | done |].
      exists add'. split_and!; [done | done |].
      destruct (a_captured a); [specialize (Hcap eq_refl)|]; lia. }
    assert (Hweak : ∀ s cap r, match_here p s cap = Some r →
              ∃ add, r = cap +:+ add ∧ all_chars Q add
                     ∧ min_captured p ≤ String.length add)
      by exact Hp.
    rewrite match_here_cons. simpl.
    destruct (a_quant a); intros s cap r Hr.
    + destruct s as [|c s]; [done|].
      destruct (a_class a c) eqn:Hc; [|done].
      destruct (Hstep c s cap r Hc (or_introl Hr)) as (add & ? & ? & ?).
      exists add. split_and!; [done | done |].
      destruct (a_captured a); lia.
    + assert (∃ add, r = cap +:+ add ∧ all_chars Q add
                     ∧ min_captured p ≤ String.length add)
        as (add & ? & ? & ?).
      { destruct s as [|c s]; [by apply (Hweak _ _ _ Hr)|].
        destruct (a_class a c) eqn:Hc; [|by apply (Hweak _ _ _ Hr)].
        destruct (match_here p s (capture a c cap)) as [r'|] eqn:Hm;
          [|by apply (Hweak _ _ _ Hr)].
        injection Hr as <-.
        destruct (Hstep c s cap r' Hc (or_introl Hm)) as (add & ? & ? & ?).
        exists add. split_and!; [done | done | lia]. }
      exists add. split_and!; [done | done |]. destruct (a_captured a); lia.
    + apply (star_loop_adds Q _ a (match_here p) Hqa Hp) in Hr
        as (add & ? & ? & ?).
      exists add. split_and!; [done | done |]. destruct (a_captured a); lia.
    + destruct s as [|c s]; [done|].
      destruct (a_class a c) eqn:Hc; [|done].
      destruct (Hstep c s cap r Hc (or_intror Hr)) as (add & ? & ? & ?).
      exists add. split_and!; [done | done |].
      destruct (a_captured a); lia.
Qed.

Lemma regex_match_adds (Q : ascii → bool) (p : list Atom) (text r : string) :
  (∀ a, a ∈ p → a_captured a = true → ∀ c, a_class a c = true → Q c = true) →
  regex_match p text = Some r →
  all_chars Q r ∧ min_captured p ≤ String.length r.
Proof.
  intros Hq. induction text as [|c text IH]; simpl.
  - destruct (match_here p EmptyString EmptyString) as [r'|] eqn:Hm; [|done].
    intros [= <-].
    by destruct (match_here_adds Q p Hq _ _ _ Hm) as (add & -> & ? & ?).
  - destruct (match_here p (String c text) EmptyString) as [r'|] eqn:Hm.
    + intros [= <-].
      by destruct (match_here_adds Q p Hq _ _ _ Hm) as (add & -> & ? & ?).
    + exact IH.
Qed.

(** What the pattern of [initConfig] captures is never empty and contains
    neither a quote nor a newline. *)
Lemma url_pattern_capture (text m1 : string) :
  regex_match url_pattern text = Some m1 →
  all_chars url_char m1 ∧ m1 ≠ EmptyString.
Proof.
  intros Hm. destruct (regex_match_adds url_char url_pattern text m1) as [Ha Hn].
  - intros a Ha Hcap c Hc. unfold url_pattern in Ha.
    repeat (apply elem_of_cons in Ha as [-> | Ha]; [by simpl in *|]).
    by apply elem_of_nil in Ha.
  - done.
  - split; [done|]. intros ->. simpl in Hn. lia.
Qed.

Lemma all_chars_trim_start (Q : ascii → bool) (s : string) :
  all_chars Q s → all_chars Q (trim_start s).
Proof.
  induction s as [|c s IH]; [done|]. intros [Hc Hs]. simpl.
  destruct (is_js_space c); [by apply IH | done].
Qed.

Lemma all_chars_rev_app (Q : ascii → bool) (s1 s2 : string) :
  all_chars Q (String.rev_app s1 s2) ↔ all_chars Q s1 ∧ all_chars Q s2.
Proof.
  revert s2. induction s1 as [|c s1 IH]; intros s2; simpl; [tauto|].
  rewrite IH. simpl. tauto.
Qed.

Lemma all_chars_rev (Q : ascii → bool) (s : string) :
  all_chars Q (String.rev s) ↔ all_chars Q s.
Proof. unfold String.rev. rewrite all_chars_rev_app. simpl. tauto. Qed.

Lemma trim_start_empty (s : string) :
  trim_start s = EmptyString ↔ all_chars is_js_space s.
Proof.
  induction s as [|c s IH]; simpl; [tauto|].
  destruct (is_js_space c); [rewrite IH; tauto|].
  split; [done | by intros [? _]].
Qed.

Lemma trim_start_head (s : string) (c : ascii) :
  head_char (trim_start s) = Some c → is_js_space c = false.
Proof.
  induction s as [|x s IH]; simpl; [done|].
  destruct (is_js_space x) eqn:Hx; [exact IH|]. by intros [= <-].
Qed.

Lemma last_char_cons (c : ascii) (s : string) :
  s ≠ EmptyString → last_char (String c s) = last_char s.
Proof. by destruct s. Qed.

Lemma trim_start_last (s : string) :
  trim_start s ≠ EmptyString → last_char (trim_start s) = last_char s.
Proof.
  induction s as [|x s IH]; simpl; [done|].
  destruct (is_js_space x); [|done].
  intros Hne. rewrite (IH Hne). symmetry. apply last_char_cons.
  intros ->. by apply Hne.
Qed.

Lemma rev_app_ends (s1 s2 : string) :
  head_char (String.rev_app s1 s2)
  = match last_char s1 with Some c => Some c | None => head_char s2 end
  ∧ last_char (String.rev_app s1 s2)
    = match last_char s2 with Some c => Some c | None => head_char s1 end.
Proof.
  revert s2. induction s1 as [|c s1 IH]; intros s2.
  - simpl. split; [done | by destruct (last_char s2)].
  - destruct (IH (String c s2)) as [Hh Hl].
    change (String.rev_app (String c s1) s2)
      with (String.rev_app s1 (String c s2)).
    rewrite Hh, Hl. split.
    + destruct s1 as [|c' s1]; [done|].
      rewrite (last_char_cons c) by done.
      destruct (last_char (String c' s1)) eqn:Hlast; [done|].
      exfalso. clear -Hlast. revert c' Hlast.
      induction s1 as [|y s1 IH]; intros c' Hlast; [done|].
      by apply (IH y).
    + destruct s2 as [|c2 s2]; [done|].
      rewrite (last_char_cons c) by done.
      destruct (last_char (String c2 s2)) eqn:Hlast; [done|].
      exfalso. clear -Hlast. revert c2 Hlast.
      induction s2 as [|y s2 IH]; intros c2 Hlast; [done|].
      by apply (IH y).
Qed.

Lemma rev_head_last (s : string) :
  head_char (String.rev s) = last_char s
  ∧ last_char (String.rev s) = head_char s.
Proof.
  unfold String.rev. destruct (rev_app_ends s EmptyString) as [-> ->].
  simpl. by destruct (last_char s).
Qed.

Lemma rev_empty (s : string) : String.rev s = EmptyString ↔ s = EmptyString.
Proof.
  split; [|by intros ->]. intros Hr.
  destruct s as [|c s]; [done|].
  pose proof (proj2 (rev_head_last (String c s))) as Hl.
  rewrite Hr in Hl. done.
Qed.

(** What [trim] returns: it keeps any property that all characters had, it
    is empty exactly when the string is all white space, and it neither
    starts nor ends with white space. *)
Lemma trim_spec (s : string) :
  (∀ Q, all_chars Q s → all_chars Q (trim s))
  ∧ (trim s = EmptyString ↔ all_chars is_js_space s)
  ∧ (∀ c, head_char (trim s) = Some c → is_js_space c = false)
  ∧ (∀ c, last_char (trim s) = Some c → is_js_space c = false).
Proof.
  unfold trim. set (a := trim_start s). set (b := String.rev a).
  set (c0 := trim_start b). split_and!.
  - intros Q Hs. apply all_chars_rev, all_chars_trim_start, all_chars_rev.
    by apply all_chars_trim_start.
  - rewrite rev_empty. unfold c0. rewrite trim_start_empty. unfold b.
    rewrite all_chars_rev. split.
    + intros Ha. apply trim_start_empty.
      destruct a as [|x a'] eqn:Hx; [done|].
      destruct Ha as [Hsp _].
      assert (head_char (trim_start s) = Some x) as Hh
        by (fold a; by rewrite Hx).
      apply trim_start_head in Hh. congruence.
    + intros Hs. by apply all_chars_trim_start.
  - intros c. rewrite (proj1 (rev_head_last c0)). intros Hl.
    destruct (decide (c0 = EmptyString)) as [He | Hne];
      [by rewrite He in Hl|].
    unfold c0 in Hl, Hne. rewrite (trim_start_last b Hne) in Hl.
    unfold b in Hl. rewrite (proj2 (rev_head_last a)) in Hl.
    by apply (trim_start_head s).
  - intros c. rewrite (proj2 (rev_head_last c0)). apply trim_start_head.
Qed.

(** * Further properties of the runtime configuration *)

(** A URL read from a [config.yaml] contains no quote and no newline, and
    neither starts nor ends with white space: whenever a candidate yields
    the URL, [initConfig] resolves with such a string. *)
Theorem config_url_is_clean (env : option string) (net : Network)
    (cfg : Config) (u : string) :
  first_config net (configUrls env) = Some u →
  (initConfig env net cfg).1 = u
  ∧ backendUrl (initConfig env net cfg).2 = Some u
  ∧ all_chars url_char u
  ∧ (∀ c, head_char u = Some c → is_js_space c = false)
  ∧ (∀ c, last_char u = Some c → is_js_space c = false).
Proof.
  intros Hu.
  assert ((initConfig env net cfg).1 = u) as H1
    by (unfold initConfig; by rewrite Hu).
  assert (backendUrl (initConfig env net cfg).2 = Some u) as H2
    by (unfold initConfig; by rewrite Hu).
  destruct (first_config_Some _ _ _ Hu) as (url & r & m1 & _ & _ & _ & Hm & ->).
  destruct (url_pattern_capture _ _ Hm) as [Hall _].
  destruct (trim_spec m1) as (Hq & _ & Hh & Hl).
  split_and!; [done | done | by apply Hq | exact Hh | exact Hl].
Qed.

Lemma config_url_is_clean_witness :
  all_chars url_char
    (initConfig None (serves "url:   'http://10.0.0.2:8123'  ")
                (mkConfig None)).1.
Proof.
  refine (proj1 (proj2 (proj2 (config_url_is_clean None
    (serves "url:   'http://10.0.0.2:8123'  ") (mkConfig None)
    "http://10.0.0.2:8123" _)))).
  by vm_compute.
Defined.

Lemma star_loop_greedy (a : Atom) (k : string → string → option string)
    (run rest cap r : string) :
  all_chars (a_class a) run →
  (∀ c, head_char rest = Some c → a_class a c = false) →
  k rest (if a_captured a then cap +:+ run else cap) = Some r →
  star_loop a k (run +:+ rest) cap = Some r.
Proof.
  revert cap. induction run as [|c run IH]; intros cap Hall Hrest Hk.
  - rewrite append_empty_r in Hk.
    assert (k rest cap = Some r) as Hk' by (by destruct (a_captured a)).
    change (EmptyString +:+ rest) with rest.
    destruct rest as [|x rest]; [done|]. simpl.
    by rewrite (Hrest x eq_refl).
  - destruct Hall as [Hc Hall].
    change (String c run +:+ rest) with (String c (run +:+ rest)).
    simpl. rewrite Hc. rewrite (IH (capture a c cap)); [done | done | done |].
    unfold capture. destruct (a_captured a); [|done].
    by rewrite append_assoc.
Qed.

Lemma lit_step (c : ascii) (p : list Atom) (s cap : string) :
  match_here (lit c :: p) (String c s) cap = match_here p s cap.
Proof.
  rewrite match_here_cons. unfold lit, capture.
  cbn [a_quant a_class a_captured]. by rewrite Ascii.eqb_refl.
Qed.

Lemma quote_step (p : list Atom) (s cap r : string) :
  match_here p s cap = Some r →
  match_here (mkAtom is_quote Opt false :: p)
    (String (ascii_of_nat 34) s) cap = Some r.
Proof.
  intros Hr. rewrite match_here_cons. unfold capture.
  cbn [a_quant a_class a_captured].
  assert (is_quote (ascii_of_nat 34) = true) as -> by reflexivity.
  by rewrite Hr.
Qed.

Lemma url_entry_matches (value post : string) :
  value ≠ EmptyString → all_chars url_char value →
  match_here url_pattern (url_entry value +:+ post) EmptyString = Some value.
Proof.
  intros Hne Hall. unfold url_entry. rewrite !append_assoc.
  change ("url: " +:+ dquote +:+ value +:+ dquote +:+ post)
    with (String "u" (String "r" (String "l" (String ":"
           (" " +:+ String (ascii_of_nat 34)
                      (value +:+ dquote +:+ post)))))).
  unfold url_pattern. rewrite !lit_step.
  rewrite match_here_cons. cbn [a_quant].
  apply (star_loop_greedy _ _ " "); [by vm_compute | by intros c [= <-] |].
  cbn [a_captured]. apply quote_step.
  destruct value as [|c value]; [done|]. destruct Hall as [Hc Hall].
  change (String c value +:+ dquote +:+ post)
    with (String c (value +:+ dquote +:+ post)).
  rewrite match_here_cons. cbn [a_quant a_class].
  fold (url_char c). rewrite Hc.
  apply (star_loop_greedy _ _ value (dquote +:+ post));
    [exact Hall | by intros x [= <-] |].
  unfold capture. cbn [a_captured].
  change (dquote +:+ post) with (String (ascii_of_nat 34) post).
  by apply quote_step.
Qed.

Lemma lit_fail (c x : ascii) (p : list Atom) (s cap : string) :
  c ≠ x → match_here (lit c :: p) (String x s) cap = None.
Proof.
  intros Hne. rewrite match_here_cons. unfold lit.
  cbn [a_quant a_class a_captured].
  by destruct (Ascii.eqb_spec c x).
Qed.

Lemma match_here_needs_url (s cap : string) :
  starts_with "url:" s = false → match_here url_pattern s cap = None.
Proof.
  unfold url_pattern. intros Hp.
  destruct s as [|c1 s]; [done|].
  destruct (decide ("u"%char = c1)) as [<- | ?]; [|by apply lit_fail].
  rewrite lit_step.
  destruct s as [|c2 s]; [done|].
  destruct (decide ("r"%char = c2)) as [<- | ?]; [|by apply lit_fail].
  rewrite lit_step.
  destruct s as [|c3 s]; [done|].
  destruct (decide ("l"%char = c3)) as [<- | ?]; [|by apply lit_fail].
  rewrite lit_step.
  destruct s as [|c4 s]; [done|].
  destruct (decide (":"%char = c4)) as [<- | ?]; [|by apply lit_fail].
  done.
Qed.

Lemma regex_match_skip (pre rest : string) :
  url_free pre rest = true →
  regex_match url_pattern (pre +:+ rest) = regex_match url_pattern rest.
Proof.
  induction pre as [|c pre IH]; [done|]. intros Hf.
  change (url_free (String c pre) rest)
    with (negb (starts_with "url:" (String c pre +:+ rest))
          && url_free pre rest) in Hf.
  apply andb_prop in Hf as [Hn Hf]. apply negb_true_iff in Hn.
  change (String c pre +:+ rest) with (String c (pre +:+ rest)) in *.
  change (regex_match url_pattern (String c (pre +:+ rest)))
    with (match match_here url_pattern (String c (pre +:+ rest)) EmptyString with
          | Some r => Some r
          | None => regex_match url_pattern (pre +:+ rest)
          end).
  rewrite (match_here_needs_url _ _ Hn). by apply IH.
Qed.

Lemma regex_match_here (p : list Atom) (text r : string) :
  match_here p text EmptyString = Some r → regex_match p text = Some r.
Proof. intros Hm. destruct text; simpl; by rewrite Hm. Qed.

(** The URL that the installer writes is the URL the front end uses: if
    [/config.yaml] is served with a text whose first [url:] is the entry
    made of [url:], a blank and the value between double quotes, for a
    non-empty value without quote or newline, [initConfig] resolves with
    the trimmed value and stores it. *)
Theorem installer_url_is_used (env : option string) (net : Network)
    (cfg : Config) (response : Response) (pre value post : string) :
  net (mkRequest "/config.yaml" "GET" None) = Responded response →
  r_ok response = true →
  r_text response = pre +:+ url_entry value +:+ post →
  url_free pre (url_entry value +:+ post) = true →
  value ≠ EmptyString →
  all_chars url_char value →
  initConfig env net cfg = (trim value, mkConfig (Some (trim value))).
Proof.
  intros Hnet Hok Htext Hfree Hne Hall.
  assert (try_config net "/config.yaml" = Some (trim value)) as Ht.
  { unfold try_config, fetch. rewrite Hnet, Hok, Htext.
    rewrite (regex_match_skip _ _ Hfree).
    by rewrite (regex_match_here _ _ value (url_entry_matches _ _ Hne Hall)). }
  unfold initConfig, configUrls.
  change (first_config net ("/config.yaml" :: ?l))
    with (match try_config net "/config.yaml" with
          | Some u => Some u
          | None => first_config net l
          end).
  by rewrite Ht.
Qed.

Lemma installer_url_is_used_witness :
  initConfig None
    (serves (yaml_prefix +:+ url_entry "https://clippy.example.com"
             +:+ newline))
    (mkConfig None)
  = ("https://clippy.example.com",
     mkConfig (Some "https://clippy.example.com")).
Proof.
  refine (installer_url_is_used None _ (mkConfig None)
    (mkResponse true
       (yaml_prefix +:+ url_entry "https://clippy.example.com" +:+ newline)
       None)
    yaml_prefix "https://clippy.example.com" newline _ _ _ _ _ _).
  - reflexivity.
  - reflexivity.
  - reflexivity.
  - by vm_compute.
  - discriminate.
  - by vm_compute.
Defined.

(** * Properties of the text block form *)

(** The text form submits exactly the contents that are not all white
    space, and submits them as typed, not trimmed. *)
Theorem text_form_submits_nonblank (content : string) :
  (TextBlockForm_handleSubmit content = None
   ↔ all_chars is_js_space content)
  ∧ (∀ submitted,
       TextBlockForm_handleSubmit content = Some submitted →
       submitted = content ∧ ¬ all_chars is_js_space content).
Proof.
  destruct (trim_spec content) as (_ & Hempty & _).
  unfold TextBlockForm_handleSubmit. simpl.
  destruct (String.eqb_spec (trim content) EmptyString) as [He | Hne]; simpl.
  - split; [split; [intros _; by apply Hempty | done] | done].
  - split.
    + split; [done|]. intros Hall. exfalso. by apply Hne, Hempty.
    + intros ? [= <-]. split; [done|]. intros Hall. by apply Hne, Hempty.
Qed.

Lemma text_form_submits_nonblank_witness :
  TextBlockForm_handleSubmit "  hello " = Some "  hello "
  ∧ ¬ all_chars is_js_space "  hello ".
Proof.
  destruct (proj2 (text_form_submits_nonblank "  hello ") "  hello " eq_refl)
    as [_ Hn].
  split; [reflexivity | exact Hn].
Defined.

(** * Further properties of the API client *)

Lemma getApiBase_unconfigured (cfg : Config) :
  backendUrl cfg = None ∨ backendUrl cfg = Some EmptyString →
  getApiBase cfg = Throw config_error.
Proof.
  intros [H | H]; unfold getApiBase, getBackendUrl; by rewrite H.
Qed.

(** Without a backend URL (never set, or set to the empty string) every
    request of the API client is rejected with the configuration error
    before the network is reached: the result is the same on every
    network. *)
Theorem api_needs_backend_url (cfg : Config) (net : Network) :
  backendUrl cfg = None ∨ backendUrl cfg = Some EmptyString →
  (∀ name, createSession cfg net name = Throw config_error)
  ∧ (∀ sid name, joinSession cfg net sid name = Throw config_error)
  ∧ (∀ sid, getSession cfg net sid = Throw config_error)
  ∧ (∀ sid uid, destroySession cfg net sid uid = Throw config_error)
  ∧ (∀ sid uid new, transferHost cfg net sid uid new = Throw config_error)
  ∧ (∀ sid uid allow, toggleJoin cfg net sid uid allow = Throw config_error)
  ∧ (∀ sid uid bid, deleteBlock cfg net sid uid bid = Throw config_error)
  ∧ (∀ sid bid, getDownloadUrl cfg sid bid = Throw config_error)
  ∧ (∀ (L : CryptoJS) enc sid bid,
       downloadBlock cfg enc net sid bid = Throw config_error)
  ∧ (∀ (L : CryptoJS) enc rnd sid uid content,
       (∀ ct, encrypt enc rnd content = Return ct →
          createTextBlock cfg enc rnd net sid uid content
          = Throw config_error)
       ∧ (∀ err, encrypt enc rnd content = Throw err →
            createTextBlock cfg enc rnd net sid uid content = Throw err))
  ∧ (∀ (L : CryptoJS) (HL : CryptoJS_correct L) c rnd sid uid content,
       config_ok c = true → js_string content = true →
       createTextBlock cfg (mkEncryption (Some c)) rnd net sid uid content
       = Throw (if lone_surrogate content then URIError
                else config_error)).
Proof.
  intros Hcfg. pose proof (getApiBase_unconfigured cfg Hcfg) as Ha.
  assert (Hct : ∀ (L : CryptoJS) enc rnd sid uid content,
            (∀ ct, encrypt enc rnd content = Return ct →
               createTextBlock cfg enc rnd net sid uid content
               = Throw config_error)
            ∧ (∀ err, encrypt enc rnd content = Throw err →
                 createTextBlock cfg enc rnd net sid uid content
                 = Throw err)).
  { intros L enc rnd sid uid content. unfold createTextBlock.
    split; intros x Hx; rewrite Hx; simpl; [by rewrite Ha | done]. }
  split_and!; [..| exact Hct |];
    try (intros;
         unfold createSession, joinSession, getSession, destroySession,
           transferHost, toggleJoin, deleteBlock, downloadBlock,
           getDownloadUrl;
         simpl; by rewrite Ha).
  intros L HL c rnd sid uid content Hc Hjs.
  destruct (Hct L (mkEncryption (Some c)) rnd sid uid content) as [Hr Ht].
  destruct (proj1 (PBKDF2_string_spec L HL c (256 / 32) 1000) Hc)
    as [key Hk]. simpl in Hk.
  unfold encrypt, PBKDF2_string, AES_encrypt_string in Hr, Ht.
  simpl in Hr, Ht. rewrite Hk in Hr, Ht. simpl in Hr, Ht.
  destruct (lone_surrogate content) eqn:Hl.
  - apply (Utf8_parse_fails content Hjs) in Hl. rewrite Hl in Ht.
    by apply Ht.
  - destruct (Utf8_parse content) as [w|] eqn:Hp.
    + by eapply Hr.
    + apply (Utf8_parse_fails content Hjs) in Hp. congruence.
Qed.

Lemma api_needs_backend_url_witness :
  let cfg := (initConfig None (serves empty_url_yaml) (mkConfig None)).2 in
  joinSession cfg offline "k3x9qa" JNull = Throw config_error
  ∧ @createTextBlock Toy cfg toy_config "A"%char offline "k3x9qa" "u-bob"
      clip_me
    = Throw config_error
  ∧ @createTextBlock Toy cfg toy_config "A"%char offline "k3x9qa" "u-bob"
      unpaired_text
    = Throw URIError.
Proof.
  intros cfg.
  pose proof (api_needs_backend_url cfg offline
                (or_intror (eq_refl : backendUrl cfg = Some EmptyString)))
    as H.
  split_and!.
  - exact (proj1 (proj2 H) "k3x9qa" JNull).
  - exact (proj2 (proj2 (proj2 (proj2 (proj2 (proj2 (proj2 (proj2 (proj2
             (proj2 H)))))))))
             Toy Toy_correct toy_key
             "A"%char "k3x9qa" "u-bob" clip_me eq_refl eq_refl).
  - exact (proj2 (proj2 (proj2 (proj2 (proj2 (proj2 (proj2 (proj2 (proj2
             (proj2 H)))))))))
             Toy Toy_correct toy_key
             "A"%char "k3x9qa" "u-bob" unpaired_text eq_refl eq_refl).
Defined.

(** * Properties of the components' handlers *)



(** A refusal by the server is silent for host transfer, join toggling and
    block deletion: whenever the backend URL is configured and the network
    answers every request with a JSON body, ok or not, these handlers leave
    the page as it is and raise no alert. *)
Theorem refusals_raise_no_alert (cfg : Config) (net : Network)
    (sd : SessionData) (p : Page) (api : string) :
  getApiBase cfg = Return api →
  (∀ q, ∃ r v, net q = Responded r ∧ r_json r = Some v) →
  (∀ confirmed newHostId,
     handleTransferHost cfg net sd confirmed newHostId p = p)
  ∧ (∀ s, handleToggleJoin cfg net sd (Some s) p = p)
  ∧ (∀ blockId, handleDeleteBlock cfg net sd blockId p = p).
Proof.
  intros Ha Hnet.
  assert (Hj : ∀ q, ∃ v, (response ← fetch net q; json response) = Return v).
  { intros q. destruct (Hnet q) as (r & v & Hr & Hv). exists v.
    unfold fetch. rewrite Hr. simpl. unfold json. by rewrite Hv. }
  split_and!.
  - intros [] newHostId; [|done].
    unfold handleTransferHost, transferHost. rewrite Ha. simpl.
    by destruct (Hj (mkRequest (api +:+ "/session/transfer_host") "POST"
      (Some (JObj [("session_id", JStr (sd_session_id sd));
                   ("current_host_id", JStr (sd_user_id sd));
                   ("new_host_id", JStr newHostId)])))) as [v ->].
  - intros s. unfold handleToggleJoin, toggleJoin. simpl. rewrite Ha. simpl.
    by destruct (Hj (mkRequest (api +:+ "/session/toggle_join") "POST"
      (Some (JObj [("session_id", JStr (sd_session_id sd));
                   ("user_id", JStr (sd_user_id sd));
                   ("allow_join",
                    JBool (negb match s_allow_join s with
                                | Some b => b
                                | None => false
                                end))])))) as [v ->].
  - intros blockId. unfold handleDeleteBlock, deleteBlock. rewrite Ha. simpl.
    by destruct (Hj (mkRequest (api +:+ "/block/delete") "DELETE"
      (Some (JObj [("session_id", JStr (sd_session_id sd));
                   ("user_id", JStr (sd_user_id sd));
                   ("block_id", JNum (Z.of_N blockId))])))) as [v ->].
Qed.

Lemma refusals_raise_no_alert_witness :
  handleTransferHost local_config (refuses "Only the host can transfer")
    sample_session true "u-carol" blank_page
  = blank_page.
Proof.
  refine (proj1 (refusals_raise_no_alert local_config
    (refuses "Only the host can transfer") sample_session blank_page
    "http://localhost:8123/api/v1" eq_refl _) true "u-carol").
  intros q. eexists _, _. split; reflexivity.
Defined.

(** What is typed comes back, unless the library refuses it: with
    encryption initialized with a passphrase and a salt without unpaired
    surrogate, for a content without an unpaired surrogate
    [createTextBlock] sends, for whatever configured URL and network, the
    request that carries [encrypt(content)] as its content, and a
    [BlockItem] that receives a text block with that (non-empty) content
    displays [content]; for a content with an unpaired surrogate
    [createTextBlock] is rejected with the library's [URIError] whatever
    the configuration and the network, and the handler raises the alert
    and leaves the form open. *)
Theorem text_block_round_trip (L : CryptoJS) (HL : CryptoJS_correct L)
    (c : EncryptionConfig) (rnd : Salt) (sessionId userId : string)
    (content : JsString) :
  config_ok c = true →
  js_string content = true →
  (lone_surrogate content = false →
   ∃ ct,
     encrypt (mkEncryption (Some c)) rnd content = Return ct
     ∧ (∀ cfg api net,
          getApiBase cfg = Return api →
          createTextBlock cfg (mkEncryption (Some c)) rnd net sessionId
                          userId content
          = (response ← fetch net
                          (text_block_request api sessionId userId ct);
             json response))
     ∧ (∀ block shown,
          b_type block = "text" → b_content block = ct → ct ≠ EmptyString →
          BlockItem_effect (mkEncryption (Some c)) block shown = content))
  ∧ (lone_surrogate content = true →
     ∀ cfg net,
       createTextBlock cfg (mkEncryption (Some c)) rnd net sessionId userId
                       content
       = Throw URIError
       ∧ ∀ sd p,
           sd_session_id sd = sessionId → sd_user_id sd = userId →
           handleCreateTextBlock cfg (mkEncryption (Some c)) rnd net sd
                                 content p
           = alert "Failed to create block: " URIError p
           ∧ p_isCreating
               (handleCreateTextBlock cfg (mkEncryption (Some c)) rnd net sd
                                      content p)
             = p_isCreating p).
Proof.
  intros Hcfg Hjs.
  destruct (proj1 (PBKDF2_string_spec L HL c (256 / 32) 1000) Hcfg)
    as [key Hk]. simpl in Hk.
  split.
  - intros Hl.
    destruct (Utf8_parse content) as [words|] eqn:Hp;
      [|apply (Utf8_parse_fails content Hjs) in Hp; congruence].
    assert (He : encrypt (mkEncryption (Some c)) rnd content
                 = Return (CipherParams_toString
                     (AES_encrypt words (toString_Hex key) rnd))).
    { unfold encrypt, PBKDF2_string, AES_encrypt_string. simpl.
      rewrite Hk. simpl. by rewrite Hp. }
    eexists. split_and!.
    + exact He.
    + intros cfg api net Ha. unfold createTextBlock. rewrite He. simpl.
      by rewrite Ha.
    + intros block shown Ht Hc Hne. unfold BlockItem_effect.
      rewrite Ht, Hc. simpl. rewrite (eqb_tag_false _ _ Hne). simpl.
      unfold decrypt, PBKDF2_string. simpl. rewrite Hk. simpl.
      by rewrite AES_roundtrip, (Utf8_roundtrip content words Hjs Hp).
  - intros Hl cfg net.
    apply (Utf8_parse_fails content Hjs) in Hl.
    assert (Hc : createTextBlock cfg (mkEncryption (Some c)) rnd net
                   sessionId userId content = Throw URIError).
    { unfold createTextBlock, encrypt, PBKDF2_string, AES_encrypt_string.
      simpl. rewrite Hk. simpl. by rewrite Hl. }
    split; [done|]. intros sd p <- <-. unfold handleCreateTextBlock.
    by rewrite Hc.
Qed.

Lemma text_block_round_trip_witness :
  (∃ ct,
     @encrypt Toy toy_config "A"%char paired_text = Return ct
     ∧ @BlockItem_effect Toy toy_config
         (mkBlock 1 "text" ct EmptyString EmptyString) []
       = paired_text)
  ∧ @handleCreateTextBlock Toy local_config toy_config "A"%char offline
      sample_session unpaired_text blank_page
    = alert "Failed to create block: " URIError blank_page.
Proof.
  split.
  - destruct (proj1 (text_block_round_trip Toy Toy_correct
      toy_key "A"%char "k3x9qa" "u-bob" paired_text eq_refl eq_refl) eq_refl)
      as (ct & Hct & _ & Hshow).
    exists ct. split; [exact Hct|].
    apply Hshow; [reflexivity | reflexivity |].
    intros ->. vm_compute in Hct. discriminate Hct.
  - exact (proj1 (proj2 (proj2 (text_block_round_trip Toy Toy_correct
      toy_key "A"%char
      (sd_session_id sample_session) (sd_user_id sample_session)
      unpaired_text eq_refl eq_refl) eq_refl local_config offline)
      sample_session blank_page eq_refl eq_refl)).
Defined.

(** Without initialized encryption (the application shows its interface
    even when initialization failed) creating a text block reaches neither
    the configuration nor the network: it is rejected with [Encryption not
    initialized], the handler raises the alert and leaves the form open,
    and every text block with a content is displayed as [Failed to decrypt
    content]. *)
Theorem text_blocks_need_encryption (L : CryptoJS) (cfg : Config)
    (rnd : Salt) (net : Network) (sd : SessionData) (content : JsString)
    (p : Page) :
  createTextBlock cfg (mkEncryption None) rnd net (sd_session_id sd)
                  (sd_user_id sd) content
  = Throw not_initialized
  ∧ handleCreateTextBlock cfg (mkEncryption None) rnd net sd content p
    = alert "Failed to create block: " not_initialized p
  ∧ p_isCreating
      (handleCreateTextBlock cfg (mkEncryption None) rnd net sd content p)
    = p_isCreating p
  ∧ (∀ block shown,
       b_type block = "text" → b_content block ≠ EmptyString →
       BlockItem_effect (mkEncryption None) block shown
       = of_string "Failed to decrypt content").
Proof.
  split_and!; try done.
  intros block shown Ht Hc. unfold BlockItem_effect.
  rewrite Ht. simpl. by rewrite (eqb_tag_false _ _ Hc).
Qed.

Lemma text_blocks_need_encryption_witness :
  @handleCreateTextBlock Toy local_config (mkEncryption None) "A"%char
    offline sample_session clip_me blank_page
  = mkPage (Some sample_session) false
      [("Failed to create block: ", not_initialized)] true.
Proof.
  exact (proj1 (proj2 (text_blocks_need_encryption Toy local_config "A"%char
    offline sample_session clip_me blank_page))).
Defined.

(** The join form: the request carries [null] for an empty name and the
    name otherwise; when the server refuses with a non-empty [detail], the
    form shows that detail and the stored session is not touched; when the
    server accepts, the JSON body becomes the session and the error is
    cleared; in both cases loading is over. *)
Theorem join_form_shows_refusal (cfg : Config) (net : Network)
    (f : EntryForm) (api : string) (r : Response) :
  getApiBase cfg = Return api →
  net (join_request api (se_sessionId f)
         (if String.eqb (se_userName f) EmptyString then JNull
          else JStr (se_userName f)))
  = Responded r →
  (∀ fields detail,
     r_ok r = false → r_json r = Some (JObj fields) →
     assoc "detail" fields = JStr detail → detail ≠ EmptyString →
     se_error (handleJoin cfg net f) = Some (Error (JStr detail))
     ∧ se_sessionData (handleJoin cfg net f) = se_sessionData f)
  ∧ (∀ data,
       r_ok r = true → r_json r = Some data →
       se_sessionData (handleJoin cfg net f) = Some data
       ∧ se_error (handleJoin cfg net f) = None)
  ∧ se_loading (handleJoin cfg net f) = false.
Proof.
  intros Ha Hn.
  assert (Hname : name_or_null (se_userName f)
                  = if String.eqb (se_userName f) EmptyString then JNull
                    else JStr (se_userName f)).
  { unfold name_or_null, js_or. simpl.
    by destruct (String.eqb (se_userName f) EmptyString). }
  assert (Hj : joinSession cfg net (se_sessionId f)
                 (name_or_null (se_userName f))
               = if negb (r_ok r) then
                   error ← json r;
                   detail ← get_prop error "detail";
                   Throw (Error (js_or detail (JStr "Failed to join session")))
                 else json r).
  { unfold joinSession. rewrite Ha. simpl. unfold fetch.
    unfold join_request in Hn. rewrite Hname, Hn. simpl.
    destruct (r_ok r); simpl; [|done]. by destruct (json r). }
  split_and!.
  - intros fields detail Hok Hjs Hd Hne. unfold handleJoin.
    rewrite Hj, Hok. unfold json. rewrite Hjs. simpl. rewrite Hd.
    unfold js_or. simpl. by rewrite (eqb_tag_false _ _ Hne).
  - intros data Hok Hjs. unfold handleJoin.
    rewrite Hj, Hok. unfold json. by rewrite Hjs.
  - unfold handleJoin. by destruct (joinSession _ _ _ _).
Qed.

Lemma join_form_shows_refusal_witness :
  se_error (handleJoin local_config (refuses "Session is not accepting new members")
              (mkEntryForm EmptyString "k3x9qa" None true None))
  = Some (Error (JStr "Session is not accepting new members")).
Proof.
  refine (proj1 (proj1 (join_form_shows_refusal local_config
    (refuses "Session is not accepting new members")
    (mkEntryForm EmptyString "k3x9qa" None true None)
    "http://localhost:8123/api/v1"
    (mkResponse false EmptyString
       (Some (JObj [("detail", JStr "Session is not accepting new members")])))
    eq_refl eq_refl)
    [("detail", JStr "Session is not accepting new members")]
    "Session is not accepting new members" eq_refl eq_refl eq_refl _)).
  discriminate.
Defined.

(** * Further properties of the connection hook *)

Lemma replace_first_absent (pat rep s : string) :
  occurs pat s = false → replace_first pat rep s = s.
Proof.
  induction s as [|c s IH]; simpl.
  - intros H. apply orb_false_elim in H as [-> _]. done.
  - intros H. apply orb_false_elim in H as [Hs Ho]. rewrite Hs.
    by rewrite (IH Ho).
Qed.

(** The socket URL follows the scheme of the backend URL: an [http] URL
    becomes a [ws] URL and an [https] URL a [wss] URL with the same rest
    (when the rest contains no further scheme text), and a URL without
    either scheme is used as it is. *)
Theorem socket_url_follows_scheme :
  (∀ rest, occurs "https://" rest = false →
     wsUrl ("http://" +:+ rest) = "ws://" +:+ rest)
  ∧ (∀ rest, occurs "http://" rest = false →
       wsUrl ("https://" +:+ rest) = "wss://" +:+ rest)
  ∧ (∀ url, occurs "http://" url = false → occurs "https://" url = false →
       wsUrl url = url).
Proof.
  split_and!.
  - intros rest Hr. unfold wsUrl.
    change (replace_first "http://" "ws://" ("http://" +:+ rest))
      with ("ws://" +:+ rest).
    change ("ws://" +:+ rest)
      with (String "w" (String "s" (String ":" (String "/"
             (String "/" rest))))).
    simpl. by rewrite (replace_first_absent _ _ _ Hr).
  - intros rest Hr. unfold wsUrl.
    change ("https://" +:+ rest)
      with (String "h" (String "t" (String "t" (String "p" (String "s"
             (String ":" (String "/" (String "/" rest)))))))).
    simpl. rewrite (replace_first_absent _ _ _ Hr). done.
  - intros url H1 H2. unfold wsUrl.
    by rewrite (replace_first_absent _ _ _ H1), (replace_first_absent _ _ _ H2).
Qed.

Lemma socket_url_follows_scheme_witness :
  fullWsUrl "https://clippy.example.com" "k3x9qa" "u-bob"
  = "wss://clippy.example.com/ws/k3x9qa/u-bob".
Proof.
  unfold fullWsUrl.
  change (wsUrl "https://clippy.example.com")
    with (wsUrl ("https://" +:+ "clippy.example.com")).
  rewrite (proj1 (proj2 socket_url_follows_scheme) "clippy.example.com");
    [reflexivity | by vm_compute].
Defined.

Lemma run_events_app (es1 es2 : list Event) (h : Hook) :
  run_events (es1 ++ es2) h
  = match run_events es1 h with
    | Some h' => run_events es2 h'
    | None => None
    end.
Proof.
  revert h. induction es1 as [|e es1 IH]; intros h; [done|].
  simpl. destruct (step e h); [apply IH | done].
Qed.

Lemma pings_until_S (d : Z) (k : nat) :
  pings_until d (S k)
  = pings_until d k ++ [mkFrame (d + 30000 * (Z.of_nat k + 1)) 0 "ping"].
Proof. unfold pings_until. by rewrite seq_S, fmap_app. Qed.

Lemma opening_runs (d : Z) :
  (0 ≤ d)%Z → run_events (opening d) initial_hook = Some (ticking d 0).
Proof.
  intros Hd. unfold opening, initial_hook. simpl.
  rewrite (proj2 (Z.leb_le 0 d) Hd). simpl.
  unfold onopen, ticking, pings_until. simpl.
  replace (0 + d)%Z with (d + 30000 * Z.of_nat 0)%Z by lia.
  by replace (d + 30000 * Z.of_nat 0 + 30000)%Z
    with (d + 30000 * (Z.of_nat 0 + 1))%Z by lia.
Qed.

Lemma period_runs (d : Z) (k : nat) :
  run_events [Elapse 30000; TimerDue 0] (ticking d k)
  = Some (ticking d (S k)).
Proof.
  assert (He : step (Elapse 30000) (ticking d k)
               = Some (advance 30000 (ticking d k))).
  { unfold step, none_due_before, ticking. cbn [clock timers forallb t_active t_due].
    assert ((d + 30000 * Z.of_nat k + 30000
             <=? d + 30000 * (Z.of_nat k + 1))%Z = true) as ->
      by (apply Z.leb_le; lia).
    reflexivity. }
  assert (Ht : step (TimerDue 0) (advance 30000 (ticking d k))
               = Some (ticking d (S k))).
  { unfold step, advance, ticking.
    cbn [clock timers lookup list_lookup t_active t_due t_kind].
    assert ((d + 30000 * (Z.of_nat k + 1)
             =? d + 30000 * Z.of_nat k + 30000)%Z = true) as ->
      by (apply Z.eqb_eq; lia).
    cbn [andb]. unfold ping_callback, set_due.
    cbn [wsRef sockets clock sent isConnected reconnectTimeoutRef
         pingIntervalRef timers alter list_alter lookup list_lookup
         t_kind t_active].
    destruct (decide (Some OPEN = Some OPEN)) as [_ | Hn]; [|done].
    rewrite pings_until_S.
    replace (d + 30000 * Z.of_nat k + 30000)%Z
      with (d + 30000 * Z.of_nat (S k))%Z by lia.
    replace (d + 30000 * (Z.of_nat k + 1) + 30000)%Z
      with (d + 30000 * (Z.of_nat (S k) + 1))%Z by lia.
    by replace (d + 30000 * (Z.of_nat k + 1))%Z
      with (d + 30000 * Z.of_nat (S k))%Z by lia. }
  cbn [run_events]. rewrite He. cbn [run_events]. by rewrite Ht.
Qed.

Lemma periods_run (d : Z) (n k : nat) :
  run_events (periods n) (ticking d k) = Some (ticking d (n + k)).
Proof.
  revert k. induction n as [|n IH]; intros k; [done|].
  change (periods (S n)) with ([Elapse 30000; TimerDue 0] ++ periods n).
  rewrite run_events_app, period_runs, IH. do 2 f_equal. lia.
Qed.

Lemma pings_on_pings_until (d : Z) (k : nat) :
  f_time <$> filter (λ f, f_socket f = 0 ∧ f_type f = "ping") (pings_until d k)
  = (λ j, d + 30000 * (Z.of_nat j + 1))%Z <$> seq 0 k.
Proof.
  unfold pings_until. induction (seq 0 k) as [|j l IH]; [done|].
  rewrite !fmap_cons, filter_cons_True by done. rewrite fmap_cons.
  by rewrite IH.
Qed.

(** One connection: when the only socket opens [d] ms after mount and
    stays open, the end of each of the next [n] periods of 30 seconds sends
    exactly one ping, so the pings go out at [d + 30000], [d + 60000], ...;
    one interval is live; and when the socket then closes no interval is
    live and the interval can no longer fire. *)
Theorem one_ping_per_period (d : Z) (n : nat) :
  (0 ≤ d)%Z →
  ∃ h,
    run_events (opening d ++ periods n) initial_hook = Some h
    ∧ pings_on 0 h = (λ j, d + 30000 * (Z.of_nat j + 1))%Z <$> seq 0 n
    ∧ length (live_intervals h) = 1
    ∧ ∃ h', step (SocketClosed 0) h = Some h'
            ∧ live_intervals h' = []
            ∧ step (TimerDue 0) h' = None
            ∧ sent h' = sent h.
Proof.
  intros Hd. exists (ticking d n).
  rewrite run_events_app, (opening_runs d Hd), periods_run.
  rewrite Nat.add_0_r. split_and!; [done | apply pings_on_pings_until | done |].
  eexists. split; [reflexivity|]. done.
Qed.

Lemma one_ping_per_period_witness :
  ∃ h, run_events (opening 50 ++ periods 3) initial_hook = Some h
       ∧ pings_on 0 h = [30050; 60050; 90050]%Z.
Proof.
  destruct (one_ping_per_period 50 3) as (h & Hr & Hp & _); [lia|].
  exists h. split; [exact Hr | exact Hp].
Defined.

Lemma clear_ref_fields (ref : option nat) (h : Hook) :
  wsRef (clear_ref ref h) = wsRef h
  ∧ sockets (clear_ref ref h) = sockets h
  ∧ length (timers (clear_ref ref h)) = length (timers h)
  ∧ clock (clear_ref ref h) = clock h
  ∧ sent (clear_ref ref h) = sent h
  ∧ pingIntervalRef (clear_ref ref h) = pingIntervalRef h
  ∧ reconnectTimeoutRef (clear_ref ref h) = reconnectTimeoutRef h.
Proof.
  destruct ref as [id|]; simpl; [|done].
  split_and!; try done. apply length_alter.
Qed.

(** The cleanup of the effect does not end reconnection: if the current
    socket is connecting or open when the cleanup runs, the cleanup leaves
    it closing; its close event then schedules a reconnect three seconds
    later, and when that timer fires a new socket is created and becomes
    the current one. *)
Theorem cleanup_then_close_reconnects (h : Hook) (s : nat) :
  wsRef h = Some s →
  sockets h !! s = Some OPEN ∨ sockets h !! s = Some CONNECTING →
  ∃ h1 h2 h3,
    step EffectCleanup h = Some h1
    ∧ sockets h1 !! s = Some CLOSING
    ∧ step (SocketClosed s) h1 = Some h2
    ∧ reconnectTimeoutRef h2 = Some (length (timers h))
    ∧ timers h2 !! length (timers h)
      = Some (mkTimer Timeout (clock h + 3000) true)
    ∧ step (TimerDue (length (timers h))) (advance 3000 h2) = Some h3
    ∧ wsRef h3 = Some (length (sockets h))
    ∧ sockets h3 !! length (sockets h) = Some CONNECTING.
Proof.
  intros Hw Hs.
  set (ha := clear_ref (pingIntervalRef h) h).
  set (hb := clear_ref (reconnectTimeoutRef ha) ha).
  destruct (clear_ref_fields (pingIntervalRef h) h)
    as (Ha1 & Ha2 & Ha3 & Ha4 & _). fold ha in Ha1, Ha2, Ha3, Ha4.
  destruct (clear_ref_fields (reconnectTimeoutRef ha) ha)
    as (Hb1 & Hb2 & Hb3 & Hb4 & _). fold hb in Hb1, Hb2, Hb3, Hb4.
  assert (Hwb : wsRef hb = Some s) by congruence.
  assert (Hsb : sockets hb = sockets h) by congruence.
  assert (Hlb : length (timers hb) = length (timers h)) by congruence.
  assert (Hcb : clock hb = clock h) by congruence.
  set (h1 := close_socket s hb).
  assert (H1 : step EffectCleanup h = Some h1).
  { cbn [step]. unfold cleanup. fold ha. fold hb. by rewrite Hwb. }
  assert (Hs1 : sockets h1 !! s = Some CLOSING).
  { unfold h1, close_socket. simpl. rewrite list_lookup_alter_eq, Hsb.
    by destruct Hs as [-> | ->]. }
  set (hc := set_ready s CLOSED h1).
  set (hd := clear_ref (pingIntervalRef (setIsConnected false hc))
               (setIsConnected false hc)).
  destruct (clear_ref_fields (pingIntervalRef (setIsConnected false hc))
              (setIsConnected false hc)) as (Hd1 & Hd2 & Hd3 & Hd4 & _).
  fold hd in Hd1, Hd2, Hd3, Hd4.
  assert (Hld : length (timers hd) = length (timers h)).
  { rewrite Hd3. simpl. exact Hlb. }
  assert (Hcd : clock hd = clock h).
  { rewrite Hd4. simpl. exact Hcb. }
  assert (Hsd : length (sockets hd) = length (sockets h)).
  { rewrite Hd2. simpl. rewrite length_insert, length_alter. by rewrite Hsb. }
  set (h2 := onclose hc).
  assert (H2 : step (SocketClosed s) h1 = Some h2).
  { cbn [step]. by rewrite Hs1. }
  assert (Ht2 : timers h2
                = timers hd ++ [mkTimer Timeout (clock h + 3000) true]).
  { unfold h2, onclose. fold hd. simpl. by rewrite Hcd. }
  assert (Hlk : timers h2 !! length (timers h)
                = Some (mkTimer Timeout (clock h + 3000) true)).
  { rewrite Ht2, <- Hld. by rewrite list_lookup_middle. }
  assert (Hc2 : clock h2 = clock h).
  { unfold h2, onclose. fold hd. simpl. exact Hcd. }
  assert (Hs2 : length (sockets h2) = length (sockets h)).
  { unfold h2, onclose. fold hd. simpl. exact Hsd. }
  exists h1, h2, (connect (clearTimer (length (timers h)) (advance 3000 h2))).
  split_and!; try done.
  - unfold h2, onclose. fold hd. simpl. by rewrite Hld.
  - cbn [step advance timers clock]. rewrite Hlk.
    cbn [t_active t_due t_kind andb]. rewrite Hc2.
    by rewrite Z.eqb_refl.
  - cbn [connect wsRef clearTimer advance sockets]. by rewrite Hs2.
  - cbn [connect wsRef clearTimer advance sockets]. rewrite <- Hs2.
    by rewrite list_lookup_middle.
Qed.

Lemma cleanup_then_close_reconnects_witness :
  ∃ h1 h2 h3,
    step EffectCleanup (ticking 50 2) = Some h1
    ∧ step (SocketClosed 0) h1 = Some h2
    ∧ step (TimerDue 1) (advance 3000 h2) = Some h3
    ∧ wsRef h3 = Some 1.
Proof.
  destruct (cleanup_then_close_reconnects (ticking 50 2) 0 eq_refl
              (or_introl eq_refl))
    as (h1 & h2 & h3 & H1 & _ & H2 & _ & _ & H3 & H4 & _).
  exists h1, h2, h3. split_and!; [exact H1 | exact H2 | exact H3 | exact H4].
Defined.

Lemma hook_ok_transfer (h h' : Hook) :
  wsRef h' = wsRef h →
  length (sockets h') = length (sockets h) →
  clock h' = clock h →
  sent h' = sent h →
  hook_ok h → hook_ok h'.
Proof.
  intros Hw Hl Hc Hs [Hws Hfr]. unfold hook_ok.
  rewrite Hw, Hl, Hc, Hs. by split.
Qed.

Lemma hook_ok_connect (h : Hook) : hook_ok h → hook_ok (connect h).
Proof.
  intros [Hws Hfr]. split; simpl.
  - intros s [= <-]. rewrite length_app. simpl. lia.
  - eapply Forall_impl; [exact Hfr|]. simpl. intros f (? & ? & ?).
    rewrite length_app. simpl. split_and!; [done | lia | done].
Qed.

Lemma hook_ok_step (e : Event) (h h' : Hook) :
  hook_ok h → step e h = Some h' → hook_ok h'.
Proof.
  intros Hok Hstep. destruct e; simpl in Hstep.
  - injection Hstep as <-. by apply hook_ok_connect.
  - injection Hstep as <-. unfold cleanup.
    set (ha := clear_ref (pingIntervalRef h) h).
    set (hb := clear_ref (reconnectTimeoutRef ha) ha).
    destruct (clear_ref_fields (pingIntervalRef h) h)
      as (A1 & A2 & _ & A4 & A5 & _). fold ha in A1, A2, A4, A5.
    destruct (clear_ref_fields (reconnectTimeoutRef ha) ha)
      as (B1 & B2 & _ & B4 & B5 & _). fold hb in B1, B2, B4, B5.
    assert (hook_ok hb) as Hb
      by (apply (hook_ok_transfer h); congruence).
    destruct (wsRef hb); [|done].
    apply (hook_ok_transfer hb); simpl; try done. apply length_alter.
  - destruct (_ && _) eqn:Hc; [|done]. injection Hstep as <-.
    apply andb_prop in Hc as [Hms _]. apply Z.leb_le in Hms.
    destruct Hok as [Hws Hfr]. split; [done|]. simpl.
    eapply Forall_impl; [exact Hfr|]. simpl. intros f (? & ? & ?).
    split_and!; [done | done | lia].
  - destruct (sockets h !! s) as [[]|]; try done. injection Hstep as <-.
    apply (hook_ok_transfer h); simpl; try done. apply length_insert.
  - destruct (sockets h !! s) as [r|] eqn:Hs; [|done].
    assert (hook_ok (onclose (set_ready s CLOSED h))) as Hc.
    { unfold onclose.
      set (hc := setIsConnected false (set_ready s CLOSED h)).
      destruct (clear_ref_fields (pingIntervalRef hc) hc)
        as (C1 & C2 & _ & C4 & C5 & _).
      apply (hook_ok_transfer h); cbn [wsRef sockets clock sent].
      - by rewrite C1.
      - rewrite C2. cbn [sockets setIsConnected set_ready].
        apply length_insert.
      - by rewrite C4.
      - by rewrite C5.
      - done. }
    by destruct r; try done; injection Hstep as <-.
  - destruct (sockets h !! s) as [[]|]; try done; by injection Hstep as <-.
  - destruct (timers h !! id) as [tm|]; [|done].
    destruct (_ && _); [|done].
    destruct (t_kind tm); injection Hstep as <-.
    + assert (hook_ok (set_due id (t_due tm + 30000) h)) as Hd
        by (by apply (hook_ok_transfer h)).
      unfold ping_callback.
      destruct (wsRef (set_due id (t_due tm + 30000) h)) as [s|] eqn:Hw;
        [|done].
      destruct (decide _) as [Ho | Hn]; [|done].
      destruct Hd as [Hws Hfr]. split.
      * intros s0 Hs0. cbn [wsRef sockets] in *. apply Hws. congruence.
      * cbn [sent sockets clock f_type f_socket f_time].
        apply Forall_app. split; [exact Hfr|]. constructor; [|constructor].
        cbn [f_type f_socket f_time].
        split_and!; [done | by apply Hws | lia].
    + apply hook_ok_connect. apply (hook_ok_transfer h); try done.
Qed.

(** Whatever happens to the hook, the only frames it ever sends are pings,
    each on a socket that it created and stamped with a time that has been
    reached, and the current socket is always one that it created. *)
Theorem hook_sends_only_pings (es : list Event) (h : Hook) :
  run_events es initial_hook = Some h → hook_ok h.
Proof.
  assert (Hgen : ∀ h0, hook_ok h0 → run_events es h0 = Some h → hook_ok h).
  { induction es as [|e es IH]; intros h0 Hok; simpl.
    - by intros [= <-].
    - destruct (step e h0) as [h1|] eqn:Hs; [|done].
      apply IH. by apply (hook_ok_step e h0). }
  apply Hgen. split; [done | constructor].
Qed.

Lemma hook_sends_only_pings_witness :
  ∃ h, run_events rerun_while_open initial_hook = Some h ∧ hook_ok h.
Proof.
  eexists. split; [by vm_compute|].
  apply (hook_sends_only_pings rerun_while_open). by vm_compute.
Defined.

(** * Properties of the entry form and of the configuration, continued *)

(** The create form takes any JSON answer for the new session: whenever
    the request (with [null] for an empty name) is answered with a JSON
    body, ok or not, that body becomes the stored session, no error is
    shown and loading is over. *)
Theorem create_form_stores_any_answer (cfg : Config) (net : Network)
    (f : EntryForm) (api : string) (r : Response) (v : JsValue) :
  getApiBase cfg = Return api →
  net (mkRequest (api +:+ "/session/create") "POST"
         (Some (JObj [("user_name",
                       if String.eqb (se_userName f) EmptyString then JNull
                       else JStr (se_userName f))])))
  = Responded r →
  r_json r = Some v →
  se_sessionData (handleCreate cfg net f) = Some v
  ∧ se_error (handleCreate cfg net f) = None
  ∧ se_loading (handleCreate cfg net f) = false.
Proof.
  intros Ha Hn Hj.
  assert (Hname : name_or_null (se_userName f)
                  = if String.eqb (se_userName f) EmptyString then JNull
                    else JStr (se_userName f)).
  { unfold name_or_null, js_or. cbn [truthy].
    by destruct (String.eqb (se_userName f) EmptyString). }
  assert (Hc : createSession cfg net (name_or_null (se_userName f))
               = Return v).
  { unfold createSession. rewrite Ha. cbn [mbind Outcome_bind].
    unfold fetch. rewrite Hname, Hn. cbn [mbind Outcome_bind].
    unfold json. by rewrite Hj. }
  unfold handleCreate. by rewrite Hc.
Qed.

Lemma create_form_stores_any_answer_witness :
  se_sessionData (handleCreate local_config (refuses "Too many requests")
                    (mkEntryForm "Bob" EmptyString None true None))
  = Some (JObj [("detail", JStr "Too many requests")]).
Proof.
  exact (proj1 (create_form_stores_any_answer local_config
    (refuses "Too many requests")
    (mkEntryForm "Bob" EmptyString None true None)
    "http://localhost:8123/api/v1"
    (mkResponse false EmptyString
       (Some (JObj [("detail", JStr "Too many requests")])))
    (JObj [("detail", JStr "Too many requests")])
    eq_refl eq_refl eq_refl)).
Defined.

Lemma initConfig_resolves_with_witness :
  (initConfig (Some "https://api.example.com") offline (mkConfig None)).1
  = "https://api.example.com"
  ∧ getBackendUrl
      (initConfig (Some "https://api.example.com") offline (mkConfig None)).2
    = Return "https://api.example.com".
Proof.
  destruct (initConfig_resolves_with (Some "https://api.example.com") offline
              (mkConfig None)) as (Hst & Hfb & _ & _ & Hget).
  split.
  - refine (proj1 (Hfb _)). intros url Hin. apply first_config_None with
      (urls := configUrls (Some "https://api.example.com")); [|exact Hin].
    reflexivity.
  - apply Hget; [exact Hst | discriminate].
Defined.
